(** * Admission control and execution resilience of the trading service

    A shallow embedding of the order pipeline of the repository:

    - [backend/exchange/order_bus.py]   : [IdempotencyCache], [OrderBus]
    - [backend/schemas/order_intent.py] : [validate_order_intent], [clip_to_risk]
    - [backend/util/ratelimit.py]       : [TokenBucket]
    - [backend/util/budget_guard.py]    : [BudgetGuard]
    - [backend/util/breakers.py]        : [CircuitBreaker]
    - [backend/util/live_guard.py]      : [check_live_guard]
    - [backend/exchange/hl_private.py]  : [HLPrivateClient.send_order]

    Conventions.
    - Python floats (sizes, prices, token counts, clock readings) are
      idealised as rationals [Q]; comparisons are the exact ones and
      equalities of computed quantities are stated with [==]. The trip
      test of the budget guard depends on how its division rounds: the
      guard is modelled a second time over IEEE binary64 floats
      ([BudgetF]), and its trip and reset are stated there.
    - Every read of the wall clock ([time.time()], [datetime.now()]) is an
      explicit argument of the operation that performs it, so no
      assumption is made on how the clock advances between two reads.
    - A Python exception is an explicit [Raise] result; mutation of an
      object is explicit state passing.
    - An [OrderedDict] is an association list in insertion order (the head
      is the oldest entry); a plain [dict] whose order is not observed is a
      [gmap]. *)

From Stdlib Require Import QArith Qround Qabs Qpower Lqa ZArith Lia List Bool Sorted.
From Stdlib Require Import Ascii DecimalString DecimalZ.
From Stdlib Require PrimFloat.
From stdpp Require Import base gmap strings fin_maps.
Import ListNotations.

Open Scope Q_scope.

(** ** Exceptions *)

(** The result of a Python call that either returns or raises; the payload
    of [Raise] is the text of the exception. *)
Inductive result (A : Type) : Type :=
| Ok (a : A)
| Raise (msg : string).
Arguments Ok {A} a.
Arguments Raise {A} msg.

(** Python's [a > b] and [a < b] on floats. *)
Definition Qgtb (a b : Q) : bool := negb (Qle_bool a b).
Definition Qltb (a b : Q) : bool := negb (Qle_bool b a).
Definition Qgeb (a b : Q) : bool := Qle_bool b a.

Definition Qminimum (a b : Q) : Q := if Qle_bool a b then a else b.

(** [len(l) == 0] *)
Definition is_nil {A : Type} (l : list A) : bool :=
  match l with [] => true | _ => false end.

(** * IdempotencyCache ([order_bus.py]) *)

Module Idem.

Section Cache.
(** The stored payload ([order_intent.dict()]) is opaque to the cache. *)
Context {P : Type}.

(** The value stored under an intent id:
    [{"order_data": .., "timestamp": .., "created_at": ..}]. *)
Record Entry := mkEntry {
  order_data : P;
  timestamp : Q;
  created_at : Q
}.

Record IdempotencyCache := mkCache {
  window_seconds : Q;
  max_size : Z;
  cache : list (string * Entry)
}.

(** [IdempotencyCache.__init__] *)
Definition init (window : Q) (size : Z) : IdempotencyCache :=
  mkCache window size [].

Definition with_cache (c : IdempotencyCache) (l : list (string * Entry)) :=
  mkCache (window_seconds c) (max_size c) l.

Definition keys (l : list (string * Entry)) : list string := List.map fst l.

(** *** [OrderedDict] primitives *)

(** [d[k]] *)
Fixpoint od_get (k : string) (l : list (string * Entry)) : option Entry :=
  match l with
  | [] => None
  | (k', e) :: l' => if String.eqb k' k then Some e else od_get k l'
  end.

(** [k in d] *)
Definition od_mem (k : string) (l : list (string * Entry)) : bool :=
  match od_get k l with Some _ => true | None => false end.

(** [del d[k]] *)
Definition od_del (k : string) (l : list (string * Entry)) :=
  List.filter (fun kv => negb (String.eqb (fst kv) k)) l.

(** [d.move_to_end(k)] *)
Definition od_move_to_end (k : string) (l : list (string * Entry)) :=
  match od_get k l with
  | Some e => od_del k l ++ [(k, e)]
  | None => l
  end.

(** [d[k] = e]: an existing key keeps its position, a new one goes last. *)
Fixpoint od_set (k : string) (e : Entry) (l : list (string * Entry)) :=
  match l with
  | [] => [(k, e)]
  | (k', e') :: l' =>
      if String.eqb k' k then (k, e) :: l' else (k', e') :: od_set k e l'
  end.

(** [d.popitem(last=False)] *)
Definition od_popitem_first (l : list (string * Entry)) := List.tl l.

(** *** Clock reads of one [check_and_store] call *)

Record Reading := mkReading {
  at_clean : Q;   (* [now = time.time()] in [_clean_expired] *)
  at_iso : Q;     (* [datetime.now(timezone.utc)] of the new entry *)
  at_store : Q    (* [time.time()] stored as [created_at] *)
}.

(** [now - data["created_at"] > self.window_seconds] *)
Definition expired (now window : Q) (e : Entry) : bool :=
  Qgtb (now - created_at e) window.

(** [_clean_expired]: collect the expired keys, then delete each. *)
Definition clean_expired (now : Q) (c : IdempotencyCache) : IdempotencyCache :=
  let expired_keys :=
    keys (List.filter (fun kv => expired now (window_seconds c) (snd kv)) (cache c)) in
  with_cache c (List.fold_left (fun l k => od_del k l) expired_keys (cache c)).

(** [check_and_store]: [true] when the intent id is already present. *)
Definition check_and_store (c : IdempotencyCache) (intent_id : string)
    (data : P) (r : Reading) : bool * IdempotencyCache :=
  let c1 := clean_expired (at_clean r) c in
  if od_mem intent_id (cache c1) then
    (true, with_cache c1 (od_move_to_end intent_id (cache c1)))
  else
    let l := od_set intent_id (mkEntry data (at_iso r) (at_store r)) (cache c1) in
    let l' :=
      if (max_size c1 <? Z.of_nat (length l))%Z then od_popitem_first l else l in
    (false, with_cache c1 l').

(** [get] *)
Definition get (c : IdempotencyCache) (intent_id : string)
  : option Entry * IdempotencyCache :=
  if od_mem intent_id (cache c) then
    let l := od_move_to_end intent_id (cache c) in
    (od_get intent_id l, with_cache c l)
  else (None, c).

(** A sequence of calls, each with its id, payload and clock reads. *)
Definition Call : Type := string * P * Reading.


Fixpoint run (c : IdempotencyCache) (calls : list Call)
  : list bool * IdempotencyCache :=
  match calls with
  | [] => ([], c)
  | (id, d, r) :: rest =>
      let '(b, c1) := check_and_store c id d r in
      let '(bs, c2) := run c1 rest in
      (b :: bs, c2)
  end.


(** The entry of [id] stored at time [t0] is present, and every entry
    that is more recently used than it has its key in [U]. *)
Definition live (id : string) (t0 : Q) (U : list string)
    (l : list (string * Entry)) : Prop :=
  exists pre e post,
    l = pre ++ (id, e) :: post /\ created_at e = t0 /\ incl (keys post) U.

End Cache.

Arguments Entry : clear implicits.
Arguments IdempotencyCache : clear implicits.
Arguments Call : clear implicits.

End Idem.

(** * Order intents and risk clipping ([order_intent.py]) *)

Module Intent.

Inductive OrderSide := BUY | SELL.
Inductive OrderType := MARKET | LIMIT.
Inductive TimeInForce := GTC | IOC.

(** [use_enum_values = True]: the fields hold the enum values. *)
Definition side_value (s : OrderSide) : string :=
  match s with BUY => "BUY" | SELL => "SELL" end.
Definition type_value (t : OrderType) : string :=
  match t with MARKET => "market" | LIMIT => "limit" end.
Definition tif_value (t : TimeInForce) : string :=
  match t with GTC => "GTC" | IOC => "IOC" end.

Record OrderIntent := mkIntent {
  symbol : string;
  side : OrderSide;
  size : Q;
  type : OrderType;
  intent_id : string;
  limit_px : option Q;
  tif : TimeInForce;
  meta : option (gmap string string);
  created_at : Q
}.

Definition known_symbols : list string := ["BTC"; "ETH"; "SOL"; "HYPE"; "BNB"]%string.

Definition str_in (s : string) (l : list string) : bool :=
  List.existsb (String.eqb s) l.

(** [validate_symbol]; [v.upper()] is the identity on the known symbols. *)
Definition validate_symbol (v : string) : result string :=
  if negb (str_in v known_symbols) then Raise "Unknown symbol" else Ok v.

(** The constraint [Field(..., gt=0)] of [size], checked before the
    validator of the class. *)
Definition field_gt0 (v : Q) : result Q :=
  if Qgtb v 0 then Ok v else Raise "ensure this value is greater than 0".

(** [validate_size] *)
Definition validate_size (v : Q) : result Q :=
  if Qle_bool v 0 then Raise "Order size must be positive"
  else if Qgtb v 1000 then Raise "Order size exceeds maximum limit (1000)"
  else Ok v.

(** What every constructed [OrderIntent] satisfies (the validators run in
    the constructor). *)
Definition well_formed (o : OrderIntent) : Prop :=
  In (symbol o) known_symbols
  /\ 0 < size o /\ size o <= 1000
  /\ match limit_px o with Some p => 0 < p | None => True end.

Definition with_size (o : OrderIntent) (v : Q) : OrderIntent :=
  mkIntent (symbol o) (side o) v (type o) (intent_id o) (limit_px o)
           (tif o) (meta o) (created_at o).

(** [order.size = v] under [validate_assignment = True]. *)
Definition assign_size (o : OrderIntent) (v : Q) : result OrderIntent :=
  match field_gt0 v with
  | Raise msg => Raise msg
  | Ok v1 =>
      match validate_size v1 with
      | Raise msg => Raise msg
      | Ok v2 => Ok (with_size o v2)
      end
  end.

(** The messages of [validate_order_intent]; the numbers that the source
    formats into the text are the arguments of the constructors. *)
Inductive ValidationError :=
| BelowMinimum (size minimum : Q)
| ExceedsMaximum (size maximum : Q)
| NotionalExceeds (notional maximum : Q)
| PositionExceeds (position maximum : Q)
| InvalidTimeInForce (tif : string).

Inductive ValidationWarning :=
| LimitPriceOutsideRange (limit_px low high : Q).

Definition error_text (e : ValidationError) : string :=
  match e with
  | BelowMinimum _ _ => "Order size below minimum"
  | ExceedsMaximum _ _ => "Order size exceeds maximum"
  | NotionalExceeds _ _ => "Notional value exceeds maximum"
  | PositionExceeds _ _ => "Position size would exceed maximum"
  | InvalidTimeInForce _ => "Invalid time in force"
  end.

Record OrderValidationResult := mkValidation {
  valid : bool;
  errors : list ValidationError;
  warnings : list ValidationWarning;
  clipped_size : option Q;
  risk_adjusted : bool
}.

Record RiskLimits := mkLimits {
  max_notional : Q;
  max_leverage : Q;
  max_position_size : Q;
  min_size : Q;
  max_size : Q
}.

(** [RiskLimits()] *)
Definition default_limits : RiskLimits :=
  mkLimits 10000 10 1000 (1 # 1000) 100.

Fixpoint table_get {A : Type} (k : string) (t : list (string * A)) (default : A) : A :=
  match t with
  | [] => default
  | (k', v) :: t' => if String.eqb k' k then v else table_get k t' default
  end.

Definition mock_prices : list (string * Q) :=
  [("BTC", 50000); ("ETH", 3000); ("SOL", 100); ("HYPE", 1 # 10); ("BNB", 300)]%string.

Definition price_bounds : list (string * (Q * Q)) :=
  [("BTC", (40000, 60000)); ("ETH", (2000, 4000)); ("SOL", (50, 150));
   ("HYPE", (5 # 100, 15 # 100)); ("BNB", (200, 400))]%string.

Definition price_of (sym : string) : Q := table_get sym mock_prices 1000.

(** Truth value of a dict argument that defaults to [None]. *)
Definition dict_truthy (d : option (gmap string Q)) : bool :=
  match d with
  | Some m => negb (Nat.eqb (stdpp.base.size m) 0)
  | None => false
  end.

(** [current_positions.get(order.symbol, 0.0)] *)
Definition current_pos (d : option (gmap string Q)) (sym : string) : Q :=
  match d with
  | Some m => default 0 (m !! sym)
  | None => 0
  end.

Definition signed_size (o : OrderIntent) : Q :=
  match side o with BUY => size o | SELL => - size o end.

(** The local variables that the rules of [validate_order_intent]
    update in turn. *)
Record Locals := mkLocals {
  l_errors : list ValidationError;
  l_warnings : list ValidationWarning;
  l_clipped_size : option Q;
  l_risk_adjusted : bool
}.

Definition add_error (e : ValidationError) (a : Locals) : Locals :=
  mkLocals (l_errors a ++ [e]) (l_warnings a) (l_clipped_size a) (l_risk_adjusted a).

Definition add_warning (w : ValidationWarning) (a : Locals) : Locals :=
  mkLocals (l_errors a) (l_warnings a ++ [w]) (l_clipped_size a) (l_risk_adjusted a).

Definition set_clip (c : Q) (a : Locals) : Locals :=
  mkLocals (l_errors a) (l_warnings a) (Some c) true.

Definition check_min_size (limits : RiskLimits) (o : OrderIntent) (a : Locals) : Locals :=
  if Qltb (size o) (min_size limits)
  then add_error (BelowMinimum (size o) (min_size limits)) a
  else a.

Definition check_max_size (limits : RiskLimits) (o : OrderIntent) (a : Locals) : Locals :=
  if Qgtb (size o) (max_size limits)
  then set_clip (max_size limits)
         (add_error (ExceedsMaximum (size o) (max_size limits)) a)
  else a.

Definition check_notional (limits : RiskLimits) (o : OrderIntent) (a : Locals) : Locals :=
  let price := price_of (symbol o) in
  let notional := size o * price in
  if Qgtb notional (max_notional limits)
  then set_clip (max_notional limits / price)
         (add_error (NotionalExceeds notional (max_notional limits)) a)
  else a.

Definition check_position (limits : RiskLimits) (o : OrderIntent)
    (current_positions : option (gmap string Q)) (a : Locals) : Locals :=
  if dict_truthy current_positions then
    let cur := current_pos current_positions (symbol o) in
    let new_pos := cur + signed_size o in
    if Qgtb (Qabs new_pos) (max_position_size limits) then
      let max_additional := max_position_size limits - Qabs cur in
      set_clip (Qminimum (size o) max_additional)
        (add_error (PositionExceeds (Qabs new_pos) (max_position_size limits)) a)
    else a
  else a.

(** Truth value of [order.limit_px] (an optional float). *)
Definition px_truthy (p : option Q) : bool :=
  match p with Some v => negb (Qeq_bool v 0) | None => false end.

Definition check_limit_price (o : OrderIntent) (a : Locals) : Locals :=
  match type o, limit_px o with
  | LIMIT, Some px =>
      if px_truthy (Some px) then
        let price := price_of (symbol o) in
        let bounds :=
          table_get (symbol o) price_bounds (price * (8 # 10), price * (12 # 10)) in
        if negb (Qle_bool (fst bounds) px && Qle_bool px (snd bounds))
        then add_warning (LimitPriceOutsideRange px (fst bounds) (snd bounds)) a
        else a
      else a
  | _, _ => a
  end.

Definition check_tif (o : OrderIntent) (a : Locals) : Locals :=
  if negb (str_in (tif_value (tif o)) ["GTC"; "IOC"]%string)
  then add_error (InvalidTimeInForce (tif_value (tif o))) a
  else a.

(** [validate_order_intent] *)
Definition validate_order_intent (order : OrderIntent)
    (current_positions : option (gmap string Q)) : OrderValidationResult :=
  let limits := default_limits in
  let a0 := mkLocals [] [] None false in
  let a1 := check_min_size limits order a0 in
  let a2 := check_max_size limits order a1 in
  let a3 := check_notional limits order a2 in
  let a4 := check_position limits order current_positions a3 in
  let a5 := check_limit_price order a4 in
  let a6 := check_tif order a5 in
  mkValidation (is_nil (l_errors a6)) (l_errors a6) (l_warnings a6)
               (l_clipped_size a6) (l_risk_adjusted a6).

(** [clip_to_risk]: the copy gets the clip candidate assigned to [size]. *)
Definition clip_to_risk (order : OrderIntent)
    (current_positions : option (gmap string Q)) : result OrderIntent :=
  let validation := validate_order_intent order current_positions in
  match clipped_size validation with
  | Some c => assign_size order c
  | None => Ok order
  end.

(** Specification side, for comparison with [clip_to_risk]: the bounds
    of the size, notional and position rules that an intent violates (the
    position bound is the remaining headroom). *)
Definition spec_violated_bounds (order : OrderIntent)
    (current_positions : option (gmap string Q)) : list Q :=
  let limits := default_limits in
  let price := price_of (symbol order) in
  let cur := current_pos current_positions (symbol order) in
  (if Qgtb (size order) (max_size limits) then [max_size limits] else [])
  ++ (if Qgtb (size order * price) (max_notional limits)
      then [max_notional limits / price] else [])
  ++ (if dict_truthy current_positions
         && Qgtb (Qabs (cur + signed_size order)) (max_position_size limits)
      then [max_position_size limits - Qabs cur] else []).

End Intent.

(** * TokenBucket ([ratelimit.py]) *)

Module Bucket.

Record TokenBucket := mkBucket {
  rps : Q;
  burst : Z;
  name : string;
  tokens : Q;
  last_refill : Q;
  tokens_consumed : Z;
  total_wait_time : Q
}.

(** [TokenBucket.__init__], with the clock read it performs. *)
Definition init (rps : Q) (burst : Z) (name : string) (now : Q) : TokenBucket :=
  mkBucket rps burst name (inject_Z burst) now 0 0.

(** Clock reads of one [acquire] call. *)
Record Reading := mkReading {
  at_start : Q;   (* [start_time = time.time()] *)
  at_lock : Q;    (* [now = time.time()] inside the lock *)
  at_done : Q     (* the read that closes the wait-time measurement *)
}.

Definition refill (b : TokenBucket) (now : Q) : TokenBucket :=
  let elapsed := now - last_refill b in
  let refill_amount := elapsed * rps b in
  if Qgtb refill_amount 0 then
    mkBucket (rps b) (burst b) (name b)
      (Qminimum (inject_Z (burst b)) (tokens b + refill_amount))
      now (tokens_consumed b) (total_wait_time b)
  else b.

(** The bookkeeping shared by both successful paths: [self.tokens] has
    value [t] before [self.tokens -= tokens]. *)
Definition consume (b : TokenBucket) (t : Q) (requested : Z) (r : Reading) : TokenBucket :=
  mkBucket (rps b) (burst b) (name b)
    (t - inject_Z requested)
    (last_refill b)
    (tokens_consumed b + requested)%Z
    (total_wait_time b + (at_done r - at_start r) * 1000).

(** [acquire]: the outcome and the bucket the call leaves behind. The
    division [tokens_needed / self.rps] raises [ZeroDivisionError] when
    [rps] is zero. The metrics calls do not touch the bucket. *)
Definition acquire (b : TokenBucket) (requested : Z) (timeout_ms : Z) (r : Reading)
  : result bool * TokenBucket :=
  let timeout_seconds := inject_Z timeout_ms / 1000 in
  let b1 := refill b (at_lock r) in
  if Qgeb (tokens b1) (inject_Z requested) then
    (Ok true, consume b1 (tokens b1) requested r)
  else
    let tokens_needed := inject_Z requested - tokens b1 in
    if Qeq_bool (rps b1) 0 then (Raise "float division by zero", b1)
    else
      let wait_seconds := tokens_needed / rps b1 in
      if Qle_bool wait_seconds timeout_seconds then
        let refilled :=
          Qminimum (inject_Z (burst b1)) (tokens b1 + wait_seconds * rps b1) in
        (Ok true, consume b1 refilled requested r)
      else (Ok false, b1).

(** Sequential calls [(tokens, timeout_ms, clock reads)] on one bucket. *)
Fixpoint acquire_all (b : TokenBucket) (calls : list (Z * Z * Reading))
  : list (result bool) * TokenBucket :=
  match calls with
  | [] => ([], b)
  | (n, t, r) :: rest =>
      let '(out, b1) := acquire b n t r in
      let '(outs, b2) := acquire_all b1 rest in
      (out :: outs, b2)
  end.

(** The invariant stated for the bucket: [0 <= tokens <= burst]. *)
Definition within_bounds (b : TokenBucket) : Prop :=
  0 <= tokens b /\ tokens b <= inject_Z (burst b).

End Bucket.

(** * BudgetGuard ([budget_guard.py]) *)

Module Budget.

Record PnLRecord := mkRecord {
  timestamp : Q;
  realized_pnl : Q;
  simulated_pnl : Q;
  total_pnl : Q
}.

Record BudgetGuard := mkGuard {
  max_drawdown_pct : Q;
  window_seconds : Q;
  records : list PnLRecord;
  initial_balance : Q;
  triggered : bool;
  triggered_at : option Q
}.

(** [BudgetGuard.__init__] *)
Definition init (max_drawdown_pct : Q) (window_hours : Z) : BudgetGuard :=
  mkGuard max_drawdown_pct (inject_Z (window_hours * 3600)) [] 10000 false None.

Definition set_initial_balance (g : BudgetGuard) (balance : Q) : BudgetGuard :=
  mkGuard (max_drawdown_pct g) (window_seconds g) (records g) balance
          (triggered g) (triggered_at g).

(** [while self.records and self.records[0].timestamp < cutoff: popleft()] *)
Fixpoint prune (cutoff : Q) (rs : list PnLRecord) : list PnLRecord :=
  match rs with
  | [] => []
  | r :: rest => if Qltb (timestamp r) cutoff then prune cutoff rest else r :: rest
  end.

(** [sum(record.total_pnl for record in self.records)] *)
Definition window_sum (rs : list PnLRecord) : Q :=
  List.fold_left (fun acc r => acc + total_pnl r) rs 0.

Definition set_trigger (g : BudgetGuard) (t : bool) (at_ : option Q) : BudgetGuard :=
  mkGuard (max_drawdown_pct g) (window_seconds g) (records g)
          (initial_balance g) t at_.

(** [_check_budget_limit]; [now] is the clock read of a trip. The
    division by [initial_balance] raises when the balance is zero. *)
Definition check_budget_limit (g : BudgetGuard) (now : Q)
  : result unit * BudgetGuard :=
  match records g with
  | [] => (Ok tt, g)
  | _ :: _ =>
      let total := window_sum (records g) in
      if Qeq_bool (initial_balance g) 0 then (Raise "float division by zero", g)
      else
        let drawdown_pct := Qabs total / initial_balance g * 100 in
        if Qgeb drawdown_pct (max_drawdown_pct g) && negb (triggered g) then
          (Ok tt, set_trigger g true (Some now))
        else if Qltb drawdown_pct (max_drawdown_pct g) && triggered g then
          (Ok tt, set_trigger g false None)
        else (Ok tt, g)
  end.

(** [record_pnl]; [now] is its own clock read, [now_trip] the one of
    [_check_budget_limit]. *)
Definition record_pnl (g : BudgetGuard) (realized simulated : Q) (now now_trip : Q)
  : result unit * BudgetGuard :=
  let total := realized + simulated in
  let record := mkRecord now realized simulated total in
  let rs := records g ++ [record] in
  let cutoff := now - window_seconds g in
  let g1 := mkGuard (max_drawdown_pct g) (window_seconds g) (prune cutoff rs)
                    (initial_balance g) (triggered g) (triggered_at g) in
  check_budget_limit g1 now_trip.

Definition is_triggered (g : BudgetGuard) : bool := triggered g.

(** A sequence of [record_pnl] calls
    [(realized, simulated, now, now_trip)]. *)
Fixpoint record_all (g : BudgetGuard) (calls : list (Q * Q * Q * Q)) : BudgetGuard :=
  match calls with
  | [] => g
  | (realized, simulated, now, now_trip) :: rest =>
      record_all (snd (record_pnl g realized simulated now now_trip)) rest
  end.

(** The status dictionary of [get_status], as far as the live guard reads
    it. *)
Record Status := mkStatus {
  st_triggered : bool;
  st_drawdown_pct : Q;
  st_total_pnl : Q
}.

Definition get_status (g : BudgetGuard) : result Status :=
  match records g with
  | [] => Ok (mkStatus false 0 0)
  | _ :: _ =>
      let total := window_sum (records g) in
      if Qeq_bool (initial_balance g) 0 then Raise "float division by zero"
      else Ok (mkStatus (triggered g) (Qabs total / initial_balance g * 100) total)
  end.

(** [reset] *)
Definition reset (g : BudgetGuard) : BudgetGuard :=
  mkGuard (max_drawdown_pct g) (window_seconds g) [] (initial_balance g) false None.

(** The records are in the order of their timestamps, none later than
    [now]: what a clock that never steps back produces. *)
Definition chronological (rs : list PnLRecord) (now : Q) : Prop :=
  StronglySorted (fun a b => timestamp a <= timestamp b) rs
  /\ Forall (fun a => timestamp a <= now) rs.

End Budget.

(** * CircuitBreaker ([breakers.py]) *)

Module Breaker.

Record BreakerConfig := mkConfig {
  failure_window_sec : Z;
  failure_threshold : Z;
  reset_after_sec : Z
}.

(** [BreakerConfig()] *)
Definition default_config : BreakerConfig := mkConfig 30 5 60.

Record CircuitBreaker := mkBreaker {
  path : string;
  config : BreakerConfig;
  failures : list Q;          (* deque of failure timestamps, oldest first *)
  tripped_at : option Q;
  last_reset : Q
}.

(** [CircuitBreaker.__init__] *)
Definition init (path : string) (config : BreakerConfig) (now : Q) : CircuitBreaker :=
  mkBreaker path config [] None now.

Definition with_tripped_at (b : CircuitBreaker) (t : option Q) : CircuitBreaker :=
  mkBreaker (path b) (config b) (failures b) t (last_reset b).

(** Truth value of [self.tripped_at]: [None] and [0.0] are false. *)
Definition truthy (t : option Q) : bool :=
  match t with Some v => negb (Qeq_bool v 0) | None => false end.

(** [record_success] *)
Definition record_success (b : CircuitBreaker) : CircuitBreaker :=
  let b1 := mkBreaker (path b) (config b) [] (tripped_at b) (last_reset b) in
  if truthy (tripped_at b1) then with_tripped_at b1 None else b1.

(** [while self.failures and self.failures[0] < cutoff: popleft()] *)
Fixpoint drop_old (cutoff : Q) (fs : list Q) : list Q :=
  match fs with
  | [] => []
  | f :: rest => if Qltb f cutoff then drop_old cutoff rest else f :: rest
  end.

(** [record_failure] *)
Definition record_failure (b : CircuitBreaker) (now : Q) : CircuitBreaker :=
  let cutoff := now - inject_Z (failure_window_sec (config b)) in
  let fs := drop_old cutoff (failures b ++ [now]) in
  let b1 := mkBreaker (path b) (config b) fs (tripped_at b) (last_reset b) in
  if (failure_threshold (config b) <=? Z.of_nat (length fs))%Z then
    if negb (truthy (tripped_at b1)) then with_tripped_at b1 (Some now) else b1
  else b1.

(** [is_tripped]: the answer and the breaker it leaves behind; [now] is
    read only when the breaker is tripped. *)
Definition is_tripped (b : CircuitBreaker) (now : Q) : bool * CircuitBreaker :=
  match tripped_at b with
  | Some t =>
      if negb (truthy (Some t)) then (false, b)
      else if Qgtb (now - t) (inject_Z (reset_after_sec (config b)))
           then (false, with_tripped_at b None)
           else (true, b)
  | None => (false, b)
  end.

(** [should_skip] *)
Definition should_skip (b : CircuitBreaker) (now : Q) : bool * CircuitBreaker :=
  is_tripped b now.

Record BreakerStatus := mkStatus {
  s_path : string;
  s_tripped : bool;
  s_failure_count : nat;
  s_last_failure : option Q;
  s_tripped_at : option Q
}.

(** [get_status]: ["tripped"] is evaluated first, so ["tripped_at"] shows
    the value after a possible auto-reset. *)
Definition get_status (b : CircuitBreaker) (now : Q) : BreakerStatus * CircuitBreaker :=
  let '(t, b1) := is_tripped b now in
  (mkStatus (path b1) t (length (failures b1)) (List.last (List.map Some (failures b1)) None)
            (tripped_at b1),
   b1).

(** The module-level registry [_breakers]; [clock p] is the time read
    while the breaker of path [p] is examined. *)
Definition get_all_status (breakers : gmap string CircuitBreaker) (clock : string -> Q)
  : gmap string BreakerStatus * gmap string CircuitBreaker :=
  (map_imap (fun p b => Some (fst (get_status b (clock p)))) breakers,
   map_imap (fun p b => Some (snd (get_status b (clock p)))) breakers).

(** The module-level functions over the registry [_breakers]. A breaker
    object is shared with the registry, so a method call on it is an update
    of its entry. [now_new] is the clock read of the constructor when the
    path is new. *)
Module Registry.

(** [get_breaker]: get or create. *)
Definition get_breaker (breakers : gmap string CircuitBreaker) (path : string)
    (now_new : Q) : CircuitBreaker * gmap string CircuitBreaker :=
  match breakers !! path with
  | Some b => (b, breakers)
  | None =>
      let b := init path default_config now_new in
      (b, <[path := b]> breakers)
  end.

(** [record_success(path)] *)
Definition record_success (breakers : gmap string CircuitBreaker) (path : string)
    (now_new : Q) : gmap string CircuitBreaker :=
  let '(b, m) := get_breaker breakers path now_new in
  <[path := Breaker.record_success b]> m.

(** [record_failure(path)] *)
Definition record_failure (breakers : gmap string CircuitBreaker) (path : string)
    (now_new now : Q) : gmap string CircuitBreaker :=
  let '(b, m) := get_breaker breakers path now_new in
  <[path := Breaker.record_failure b now]> m.

(** [should_skip(path)] *)
Definition should_skip (breakers : gmap string CircuitBreaker) (path : string)
    (now_new now : Q) : bool * gmap string CircuitBreaker :=
  let '(b, m) := get_breaker breakers path now_new in
  let '(skip, b1) := Breaker.should_skip b now in
  (skip, <[path := b1]> m).

(** [reset_all] *)
Definition reset_all (breakers : gmap string CircuitBreaker)
  : gmap string CircuitBreaker := ∅.

End Registry.

End Breaker.

(** * Live guard ([live_guard.py]) *)

Module LiveGuard.

(** The data-health provider. [get_health_metrics] computes its report
    from the sampler's buffers without writing to them; the report is the
    part of the sampler that the guard reads. *)
Record MarketSampler := mkSampler {
  health_status : string;
  health_notes : list string
}.

(** The process-wide components that the guard consults. *)
Record World := mkWorld {
  sampler : option MarketSampler;
  breakers : gmap string Breaker.CircuitBreaker;
  budget : Budget.BudgetGuard
}.

(** The [guard_info] dictionary, one constructor per return site. *)
Inductive GuardInfo :=
| DataUnavailable
| DataDegraded (data_health : string) (notes : list string)
| BreakersActive (statuses : gmap string Breaker.BreakerStatus)
                 (active_breakers : list string)
| BudgetTriggered (budget_status : Budget.Status) (drawdown_pct : Q)
| AllGreen (data_health : string)
| GuardError (error : string).

Definition Verdict : Type := bool * string * GuardInfo.

(** [check_live_guard]; the [except Exception] branch catches the fault
    of [get_budget_status]. *)
Definition check_live_guard (w : World) (clock : string -> Q) : Verdict * World :=
  match sampler w with
  | None => ((false, "no_sampler"%string, DataUnavailable), w)
  | Some s =>
      if negb (String.eqb (health_status s) "healthy") then
        ((false, "data_degraded"%string,
          DataDegraded (health_status s) (health_notes s)), w)
      else
        let '(breaker_status, breakers1) :=
          Breaker.get_all_status (breakers w) clock in
        let w1 := mkWorld (sampler w) breakers1 (budget w) in
        let tripped_now :=
          List.filter (fun kv => Breaker.s_tripped (snd kv))
                      (map_to_list breaker_status) in
        if negb (is_nil tripped_now) then
          ((false, "breaker_active"%string,
            BreakersActive breaker_status (List.map fst tripped_now)), w1)
        else
          match Budget.get_status (budget w) with
          | Raise msg => ((false, "error"%string, GuardError msg), w1)
          | Ok budget_status =>
              if Budget.st_triggered budget_status then
                ((false, "budget_triggered"%string,
                  BudgetTriggered budget_status
                    (Budget.st_drawdown_pct budget_status)), w1)
              else
                ((true, "all_green"%string, AllGreen (health_status s)), w1)
          end
  end.

End LiveGuard.

(** * Submission client ([hl_private.py]) *)

Module Private.

Inductive ErrorType := RATE_LIMIT | AUTH | INVALID | NETWORK | UNKNOWN.

Record SendResult := mkSend {
  success : bool;
  order_id : option string;
  error_type : option ErrorType;
  error_message : option string;
  retry_after : option Z;
  raw_response : option string
}.

Definition failure (t : ErrorType) (msg : string) (retry : option Z) : SendResult :=
  mkSend false None (Some t) (Some msg) retry None.

Record HLPrivateClient := mkClient {
  max_retries : Z;
  base_delay : Q;
  max_delay : Q;
  jitter_range : Q
}.

(** [HLPrivateClient.__init__] *)
Definition init : HLPrivateClient := mkClient 3 1 30 (1 # 10).

(** [_handle_http_error], from the status code and the [Retry-After]
    header (60 when absent). *)
Definition handle_http_error (status_code : Z) (retry_after_header : option Z)
  : SendResult :=
  if (status_code =? 429)%Z then
    failure RATE_LIMIT "Rate limited" (Some (default 60%Z retry_after_header))
  else if ((status_code =? 401) || (status_code =? 403))%Z then
    failure AUTH "Authentication failed" None
  else if (status_code =? 400)%Z then failure INVALID "Invalid request" None
  else if (500 <=? status_code)%Z then failure NETWORK "Server error" None
  else failure UNKNOWN "HTTP error" None.

(** [x % 1] on a float. *)
Definition Qfrac (x : Q) : Q := x - inject_Z (Qfloor x).

(** Truth value of an optional integer. *)
Definition int_truthy (n : option Z) : bool :=
  match n with Some v => negb (v =? 0)%Z | None => false end.

(** [_calculate_retry_delay]; [now] is its read of [time.time()]. *)
Definition calculate_retry_delay (c : HLPrivateClient) (attempt : Z)
    (retry_after : option Z) (now : Q) : Q :=
  if int_truthy retry_after then inject_Z (default 0%Z retry_after)
  else
    let delay := base_delay c * Qpower 2 attempt in
    let delay := Qminimum delay (max_delay c) in
    let jitter := delay * jitter_range c * (Qfrac (2 * now) - 1) in
    delay + jitter.

(** [float(n)] and the conversion of an integer operand of a float
    operation raise [OverflowError] when [n] rounds beyond the largest
    binary64, [2^1024 - 2^971]: from [2^1024 - 2^970] on. *)
Definition int_overflows_float (n : Z) : bool :=
  (2 ^ 1024 - 2 ^ 970 <=? Z.abs n)%Z.

(** [_calculate_retry_delay] with its faults. [float(retry_after)] raises on
    an integer beyond the floats; for [attempt >= 0], [2 ** attempt] is an
    integer that [self.base_delay * (2 ** attempt)] converts to a float,
    which raises from [attempt = 1024] on. Where the call returns, the
    delay is that of [calculate_retry_delay]. *)
Definition calculate_retry_delay_checked (c : HLPrivateClient) (attempt : Z)
    (retry_after : option Z) (now : Q) : result Q :=
  if int_truthy retry_after then
    if int_overflows_float (default 0%Z retry_after)
    then Raise "int too large to convert to float"
    else Ok (calculate_retry_delay c attempt retry_after now)
  else if (0 <=? attempt)%Z && int_overflows_float (2 ^ attempt)
    then Raise "int too large to convert to float"
    else Ok (calculate_retry_delay c attempt retry_after now).

(** What a [send_order] call does to the outside: the submissions it
    makes and the sleeps between them. *)
Inductive Event :=
| Submitted (attempt : Z)
| Slept (delay : Q).

Definition is_submission (e : Event) : bool :=
  match e with Submitted _ => true | Slept _ => false end.

Definition invocations (trace : list Event) : nat :=
  length (List.filter is_submission trace).

Definition is_error (r : SendResult) (t : ErrorType) : bool :=
  match error_type r, t with
  | Some RATE_LIMIT, RATE_LIMIT | Some AUTH, AUTH | Some INVALID, INVALID
  | Some NETWORK, NETWORK | Some UNKNOWN, UNKNOWN => true
  | _, _ => false
  end.

Section SendOrder.
Context {Payload : Type}.

(** The single submission attempt [_submit_order_with_retry], which
    returns a classified result or raises; and the clock read of the
    delay computation of each attempt. *)
Variable submit_order_with_retry : Payload -> Z -> result SendResult.
Variable clock : Z -> Q.

(** The body of [for attempt in range(self.max_retries)]. *)
Fixpoint retry_loop (c : HLPrivateClient) (payload : Payload)
    (attempts : list Z) : SendResult * list Event :=
  match attempts with
  | [] => (failure UNKNOWN "Max retries exceeded" None, [])
  | attempt :: rest =>
      let continue_after (delay : Q) :=
        let '(r, trace) := retry_loop c payload rest in
        (r, Submitted attempt :: Slept delay :: trace) in
      match submit_order_with_retry payload attempt with
      | Ok result =>
          if success result then (result, [Submitted attempt])
          else if is_error result RATE_LIMIT
                  && (attempt <? max_retries c - 1)%Z then
            continue_after
              (calculate_retry_delay c attempt (retry_after result) (clock attempt))
          else if is_error result AUTH || is_error result INVALID then
            (result, [Submitted attempt])
          else if (attempt <? max_retries c - 1)%Z then
            continue_after (calculate_retry_delay c attempt None (clock attempt))
          else (result, [Submitted attempt])
      | Raise e =>
          if (attempt =? max_retries c - 1)%Z then
            (failure UNKNOWN e None, [Submitted attempt])
          else
            continue_after (calculate_retry_delay c attempt None (clock attempt))
      end
  end.

(** [range(n)] *)
Definition range (n : Z) : list Z := List.map Z.of_nat (List.seq 0 (Z.to_nat n)).

(** [send_order]; [uuid] is the value drawn for the dry-run order id. *)
Definition send_order (c : HLPrivateClient) (payload : Payload)
    (dry_run : bool) (uuid : string) : SendResult * list Event :=
  if dry_run then
    (mkSend true (Some ("dry_run_" ++ uuid)%string) None None None (Some "dry_run"%string),
     [])
  else retry_loop c payload (range (max_retries c)).

End SendOrder.

(** A submission whose every attempt yields a failure classified as
    [NETWORK]. *)
Definition always_network {Payload : Type}
    (submit : Payload -> Z -> result SendResult) : Prop :=
  forall payload attempt, exists r,
    submit payload attempt = Ok r /\ success r = false
    /\ error_type r = Some NETWORK.

End Private.

(** * OrderBus ([order_bus.py]) *)

Module Bus.

Record EnqueuedResult := mkResult {
  success : bool;
  order_id : option string;
  idempotent : bool;
  validation_result : option Intent.OrderValidationResult;
  error_message : option string;
  timestamp : Q
}.

(** The lines of the audit file, one constructor per event kind. *)
Inductive AuditEvent :=
| OrderRejected (intent_id : string) (errors : list Intent.ValidationError)
                (timestamp : Q)
| OrderSubmitted (order_id intent_id symbol : string) (side : Intent.OrderSide)
                 (size : Q) (type : Intent.OrderType)
                 (validation_warnings : list Intent.ValidationWarning)
                 (timestamp : Q)
| OrderError (intent_id : string) (error : string) (timestamp : Q).

Record PendingOrder := mkPending {
  p_intent_id : string;
  p_order_intent : Intent.OrderIntent;
  p_status : string;
  p_created_at : Q
}.

(** The bus; [audit_log] is the content of the file at
    [audit_log_path]. *)
Record OrderBus := mkBus {
  idempotency_cache : Idem.IdempotencyCache Intent.OrderIntent;
  audit_log : list AuditEvent;
  pending_orders : gmap string PendingOrder
}.

(** [OrderBus.__init__], given what the audit file already holds:
    [IdempotencyCache(window_seconds=60)] keeps the default
    [max_size = 1000]. *)
Definition init (log : list AuditEvent) : OrderBus :=
  mkBus (Idem.init 60 1000) log ∅.

(** [int(x)] on a float truncates toward zero. *)
Definition py_int (x : Q) : Z :=
  if Qle_bool 0 x then Qfloor x else Qceiling x.

(** [str(n)] on an integer. *)
Definition py_str (n : Z) : string := NilEmpty.string_of_int (Z.to_int n).

(** [f"ord_{intent_id}_{int(time.time())}"] *)
Definition make_order_id (intent_id : string) (now : Q) : string :=
  ("ord_" ++ intent_id ++ "_" ++ py_str (py_int now))%string.

(** The statements of the [try] block of [submit] at which an
    unexpected exception can surface. *)
Inductive Step := Validation | Clipping | OrderIdGeneration | PendingCreation.

(** What the outside contributes to one [submit] call: its clock reads,
    whether the audit file accepts a write, and the unexpected exception
    (if any) that a step raises. *)
Record Env := mkEnv {
  cache_reading : Idem.Reading;
  order_time : Q;      (* [time.time()] of the order id *)
  stamp : Q;           (* [datetime.now(timezone.utc)] of results and events *)
  audit_ok : bool;
  fault : Step -> option string
}.

Definition no_fault : Step -> option string := fun _ => None.

(** *** State and exceptions of the [try] block *)

Definition M (A : Type) : Type := OrderBus -> result A * OrderBus.

Definition ret {A : Type} (a : A) : M A := fun b => (Ok a, b).

Definition raise {A : Type} (msg : string) : M A := fun b => (Raise msg, b).

Definition bind {A B : Type} (m : M A) (k : A -> M B) : M B :=
  fun b =>
    match m b with
    | (Ok a, b1) => k a b1
    | (Raise msg, b1) => (Raise msg, b1)
    end.

Notation "x <- m ;; k" := (bind m (fun x => k))
  (at level 100, m at next level, right associativity).
Notation "m ;;; k" := (bind m (fun _ => k))
  (at level 100, right associativity).

Definition lift {A : Type} (r : result A) : M A := fun b => (r, b).

(** An unexpected exception of a step. *)
Definition reach (env : Env) (s : Step) : M unit :=
  match fault env s with
  | Some msg => raise msg
  | None => ret tt
  end.

(** [_log_audit_event]: a failing write is caught and only logged. *)
Definition log_audit_event (ok : bool) (e : AuditEvent) : M unit :=
  fun b =>
    if ok then (Ok tt, mkBus (idempotency_cache b) (audit_log b ++ [e]) (pending_orders b))
    else (Ok tt, b).

Definition cache_check_and_store (id : string) (data : Intent.OrderIntent)
    (r : Idem.Reading) : M bool :=
  fun b =>
    let '(dup, c) := Idem.check_and_store (idempotency_cache b) id data r in
    (Ok dup, mkBus c (audit_log b) (pending_orders b)).

Definition store_pending (order_id : string) (p : PendingOrder) : M unit :=
  fun b =>
    (Ok tt, mkBus (idempotency_cache b) (audit_log b)
                  (<[order_id := p]> (pending_orders b))).

(** ["; ".join(validation_result.errors)] *)
Definition join_errors (errs : list Intent.ValidationError) : string :=
  String.concat "; " (List.map Intent.error_text errs).

(** The [try] block of [submit]. *)
Definition submit_body (env : Env) (order_intent : Intent.OrderIntent)
    (current_positions : option (gmap string Q)) : M EnqueuedResult :=
  is_idempotent <- cache_check_and_store (Intent.intent_id order_intent)
                     order_intent (cache_reading env) ;;
  if is_idempotent then
    ret (mkResult false None true None
           (Some "Order intent already processed"%string) (stamp env))
  else
    reach env Validation ;;;
    let validation_result :=
      Intent.validate_order_intent order_intent current_positions in
    if negb (Intent.valid validation_result) then
      log_audit_event (audit_ok env)
        (OrderRejected (Intent.intent_id order_intent)
           (Intent.errors validation_result) (stamp env)) ;;;
      ret (mkResult false None false (Some validation_result)
             (Some (join_errors (Intent.errors validation_result))) (stamp env))
    else
      order1 <- (if Intent.risk_adjusted validation_result then
                   reach env Clipping ;;;
                   lift (Intent.clip_to_risk order_intent current_positions)
                 else ret order_intent) ;;
      reach env OrderIdGeneration ;;;
      let order_id := make_order_id (Intent.intent_id order1) (order_time env) in
      reach env PendingCreation ;;;
      store_pending order_id
        (mkPending (Intent.intent_id order1) order1 "pending" (stamp env)) ;;;
      log_audit_event (audit_ok env)
        (OrderSubmitted order_id (Intent.intent_id order1) (Intent.symbol order1)
           (Intent.side order1) (Intent.size order1) (Intent.type order1)
           (Intent.warnings validation_result) (stamp env)) ;;;
      ret (mkResult true (Some order_id) false (Some validation_result) None
             (stamp env)).

(** [submit]: the [try] block under its [except Exception] handler. *)
Definition submit (bus : OrderBus) (env : Env) (order_intent : Intent.OrderIntent)
    (current_positions : option (gmap string Q)) : EnqueuedResult * OrderBus :=
  match submit_body env order_intent current_positions bus with
  | (Ok r, bus1) => (r, bus1)
  | (Raise msg, bus1) =>
      let '(_, bus2) :=
        log_audit_event (audit_ok env)
          (OrderError (Intent.intent_id order_intent) msg (stamp env)) bus1 in
      (mkResult false None false None (Some msg) (stamp env), bus2)
  end.

(** Successive [submit] calls on one bus. *)
Fixpoint submit_all (bus : OrderBus)
    (calls : list (Env * Intent.OrderIntent * option (gmap string Q)))
  : list EnqueuedResult * OrderBus :=
  match calls with
  | [] => ([], bus)
  | (env, o, pos) :: rest =>
      let '(r, bus1) := submit bus env o pos in
      let '(rs, bus2) := submit_all bus1 rest in
      (r :: rs, bus2)
  end.

Definition with_audit_ok (env : Env) (ok : bool) : Env :=
  mkEnv (cache_reading env) (order_time env) (stamp env) ok (fault env).

(** [get_order_by_id] *)
Definition get_order_by_id (bus : OrderBus) (order_id : string)
  : option PendingOrder :=
  pending_orders bus !! order_id.

End Bus.

(** * BudgetGuard in binary64 ([budget_guard.py])

    The same code as [Budget], with the PnL amounts, the balance, the
    percentages and the clock as IEEE binary64 floats and their rounding,
    for the properties that depend on how [abs(total) / initial_balance *
    100] rounds. *)

Module BudgetF.

Import PrimFloat.
Local Open Scope float_scope.

Abbreviation float := PrimFloat.float.

(** [a >= b], [a < b] and [a == 0] on floats; all are false on a NaN. *)
Definition fge (a b : float) : bool :=
  match PrimFloat.compare a b with
  | PrimFloat.FEq | PrimFloat.FGt => true
  | _ => false
  end.

Definition flt (a b : float) : bool :=
  match PrimFloat.compare a b with
  | PrimFloat.FLt => true
  | _ => false
  end.

Definition fzero (a : float) : bool :=
  match PrimFloat.compare a 0 with
  | PrimFloat.FEq => true
  | _ => false
  end.

Record PnLRecord := mkRecord {
  timestamp : float;
  realized_pnl : float;
  simulated_pnl : float;
  total_pnl : float
}.

Record BudgetGuard := mkGuard {
  max_drawdown_pct : float;
  window_seconds : float;
  records : list PnLRecord;
  initial_balance : float;
  triggered : bool;
  triggered_at : option float
}.

(** [BudgetGuard.__init__]; [window_hours * 3600] is an integer that the
    subtraction [now - self.window_seconds] reads as a float. *)
Definition init (max_drawdown_pct window_hours : float) : BudgetGuard :=
  mkGuard max_drawdown_pct (window_hours * 3600) [] 10000 false None.

Definition set_initial_balance (g : BudgetGuard) (balance : float) : BudgetGuard :=
  mkGuard (max_drawdown_pct g) (window_seconds g) (records g) balance
          (triggered g) (triggered_at g).

(** [while self.records and self.records[0].timestamp < cutoff: popleft()] *)
Fixpoint prune (cutoff : float) (rs : list PnLRecord) : list PnLRecord :=
  match rs with
  | [] => []
  | r :: rest => if flt (timestamp r) cutoff then prune cutoff rest else r :: rest
  end.

Definition set_trigger (g : BudgetGuard) (t : bool) (at_ : option float) : BudgetGuard :=
  mkGuard (max_drawdown_pct g) (window_seconds g) (records g)
          (initial_balance g) t at_.

Definition is_triggered (g : BudgetGuard) : bool := triggered g.


Section Guard.

(** The built-in [sum] on the floats of the window, in the order of the
    deque. The guard is modelled over the built-in, whichever summation it
    performs. *)
Variable py_sum : list float -> float.

(** [sum(record.total_pnl for record in self.records)] *)
Definition window_sum (rs : list PnLRecord) : float :=
  py_sum (List.map total_pnl rs).

(** [_check_budget_limit]; a float division by zero raises. [now] is its
    read of [time.time()] when the guard trips. *)
Definition check_budget_limit (g : BudgetGuard) (now : float)
  : result unit * BudgetGuard :=
  match records g with
  | [] => (Ok tt, g)
  | _ :: _ =>
      let total := window_sum (records g) in
      if fzero (initial_balance g) then (Raise "float division by zero", g)
      else
        let drawdown_pct := PrimFloat.abs total / initial_balance g * 100 in
        if fge drawdown_pct (max_drawdown_pct g) && negb (triggered g) then
          (Ok tt, set_trigger g true (Some now))
        else if flt drawdown_pct (max_drawdown_pct g) && triggered g then
          (Ok tt, set_trigger g false None)
        else (Ok tt, g)
  end.

(** [record_pnl]; [now] is its read of the clock. *)
Definition record_pnl (g : BudgetGuard) (realized simulated : float)
    (now now_trip : float) : result unit * BudgetGuard :=
  let total := realized + simulated in
  let record := mkRecord now realized simulated total in
  let rs := records g ++ [record] in
  let cutoff := now - window_seconds g in
  let g1 := mkGuard (max_drawdown_pct g) (window_seconds g) (prune cutoff rs)
                    (initial_balance g) (triggered g) (triggered_at g) in
  check_budget_limit g1 now_trip.

(** A sequence of [record_pnl] calls
    [(realized, simulated, now, now_trip)]. *)
Fixpoint record_all (g : BudgetGuard) (calls : list (float * float * float * float))
  : BudgetGuard :=
  match calls with
  | [] => g
  | (realized, simulated, now, now_trip) :: rest =>
      record_all (snd (record_pnl g realized simulated now now_trip)) rest
  end.

End Guard.

End BudgetF.

(** * Properties *)

(** ** Boolean comparisons on [Q] *)

Lemma Qgtb_true a b : Qgtb a b = true <-> b < a.
Proof.
  unfold Qgtb. rewrite negb_true_iff, <- not_true_iff_false, Qle_bool_iff.
  split; [apply Qnot_le_lt | apply Qlt_not_le].
Qed.

Lemma Qgtb_false a b : Qgtb a b = false <-> a <= b.
Proof. unfold Qgtb. rewrite negb_false_iff. apply Qle_bool_iff. Qed.

Lemma Qltb_true a b : Qltb a b = true <-> a < b.
Proof. unfold Qltb. apply (Qgtb_true b a). Qed.

Lemma Qltb_false a b : Qltb a b = false <-> b <= a.
Proof. unfold Qltb. apply (Qgtb_false b a). Qed.

Lemma Qgeb_true a b : Qgeb a b = true <-> b <= a.
Proof. unfold Qgeb. apply Qle_bool_iff. Qed.

Lemma Qgeb_false a b : Qgeb a b = false <-> a < b.
Proof.
  unfold Qgeb. rewrite <- not_true_iff_false, Qle_bool_iff.
  split; [apply Qnot_le_lt | apply Qlt_not_le].
Qed.

Lemma Qeq_bool_pos a : 0 < a -> Qeq_bool a 0 = false.
Proof.
  intros H. destruct (Qeq_bool a 0) eqn:E; [|reflexivity].
  apply Qeq_bool_iff in E. rewrite E in H. now apply Qlt_irrefl in H.
Qed.

Lemma Qminimum_spec a b :
  (a <= b /\ Qminimum a b = a) \/ (b < a /\ Qminimum a b = b).
Proof.
  unfold Qminimum. destruct (Qle_bool a b) eqn:E.
  - left. split; [now apply Qle_bool_iff | reflexivity].
  - right. split; [| reflexivity].
    apply Qnot_le_lt. intros H. apply Qle_bool_iff in H. congruence.
Qed.

(** ** The ordered dictionary of the idempotency cache *)

Section IdemFacts.
Context {P : Type}.
Implicit Types (l pre post : list (string * Idem.Entry P)).
Implicit Types (c : Idem.IdempotencyCache P) (e : Idem.Entry P).
Implicit Types (k id : string).

Lemma keys_app l1 l2 : Idem.keys (l1 ++ l2) = Idem.keys l1 ++ Idem.keys l2.
Proof. apply List.map_app. Qed.

Lemma od_get_In k l e : Idem.od_get k l = Some e -> In (k, e) l.
Proof.
  induction l as [|[k' e'] l IH]; simpl; [discriminate|].
  destruct (String.eqb k' k) eqn:E.
  - apply String.eqb_eq in E. intros [= ->]. left. now subst.
  - intros H. right. auto.
Qed.

Lemma od_get_None k l : Idem.od_get k l = None <-> ~ In k (Idem.keys l).
Proof.
  induction l as [|[k' e'] l IH]; simpl; [tauto|].
  destruct (String.eqb k' k) eqn:E.
  - apply String.eqb_eq in E. split; [discriminate | intros H; exfalso; auto].
  - apply String.eqb_neq in E. rewrite IH. tauto.
Qed.

Lemma od_mem_true k l : Idem.od_mem k l = true <-> In k (Idem.keys l).
Proof.
  unfold Idem.od_mem. destruct (Idem.od_get k l) eqn:E.
  - split; [intros _ | reflexivity].
    apply od_get_In in E. apply (List.in_map fst) in E. exact E.
  - apply od_get_None in E. split; [discriminate | tauto].
Qed.

Lemma od_mem_false k l : Idem.od_mem k l = false <-> ~ In k (Idem.keys l).
Proof. rewrite <- od_mem_true. destruct (Idem.od_mem k l); split; congruence. Qed.

Lemma od_get_middle k e pre post :
  ~ In k (Idem.keys pre) -> Idem.od_get k (pre ++ (k, e) :: post) = Some e.
Proof.
  induction pre as [|[k' e'] pre IH]; simpl; intros H.
  - now rewrite String.eqb_refl.
  - destruct (String.eqb k' k) eqn:E.
    + apply String.eqb_eq in E. exfalso. auto.
    + apply IH. auto.
Qed.

Lemma od_get_skip k k' e pre post :
  k <> k' ->
  Idem.od_get k (pre ++ (k', e) :: post) = Idem.od_get k (pre ++ post).
Proof.
  intros Hne. induction pre as [|[k0 e0] pre IH]; simpl.
  - apply String.eqb_neq in Hne. rewrite String.eqb_sym in Hne. now rewrite Hne.
  - now rewrite IH.
Qed.



Lemma od_del_keys k k' l :
  In k' (Idem.keys (Idem.od_del k l)) <-> In k' (Idem.keys l) /\ k' <> k.
Proof.
  unfold Idem.od_del, Idem.keys. rewrite !List.in_map_iff. split.
  - intros [[k0 e0] [<- H]]. apply List.filter_In in H as [H1 H2]. simpl in *.
    apply negb_true_iff, String.eqb_neq in H2. split; [|exact H2].
    exists (k0, e0). auto.
  - intros [[[k0 e0] [<- H]] Hne]. exists (k0, e0). split; [reflexivity|].
    apply List.filter_In. split; [exact H|]. simpl in *.
    now apply negb_true_iff, String.eqb_neq.
Qed.

Lemma keys_filter_incl f l :
  incl (Idem.keys (List.filter f l)) (Idem.keys l).
Proof.
  intros k. unfold Idem.keys. rewrite !List.in_map_iff.
  intros [kv [<- H]]. apply List.filter_In in H as [H _]. eauto.
Qed.

Lemma NoDup_keys_filter f l :
  List.NoDup (Idem.keys l) -> List.NoDup (Idem.keys (List.filter f l)).
Proof.
  induction l as [|kv l IH]; simpl; intros H; [constructor|].
  apply List.NoDup_cons_iff in H as [Hin Hnd].
  destruct (f kv); simpl; [|auto].
  apply List.NoDup_cons; [|auto].
  intros Hk. apply Hin. eapply keys_filter_incl. exact Hk.
Qed.

Lemma NoDup_keys_inj k e1 e2 l :
  List.NoDup (Idem.keys l) -> In (k, e1) l -> In (k, e2) l -> e1 = e2.
Proof.
  induction l as [|[k' e'] l IH]; simpl; intros Hnd H1 H2; [tauto|].
  apply List.NoDup_cons_iff in Hnd as [Hin Hnd].
  destruct H1 as [H1|H1], H2 as [H2|H2]; auto.
  - congruence.
  - inversion H1; subst. exfalso. apply Hin.
    apply (List.in_map fst) in H2. exact H2.
  - inversion H2; subst. exfalso. apply Hin.
    apply (List.in_map fst) in H1. exact H1.
Qed.

Lemma od_set_fresh k e l :
  ~ In k (Idem.keys l) -> Idem.od_set k e l = l ++ [(k, e)].
Proof.
  induction l as [|[k' e'] l IH]; simpl; intros H; [reflexivity|].
  destruct (String.eqb k' k) eqn:E.
  - apply String.eqb_eq in E. exfalso. auto.
  - f_equal. apply IH. auto.
Qed.

(** Deleting a list of keys one by one keeps the entries under the other
    keys, in order. *)
Lemma fold_del ks l :
  List.fold_left (fun l k => Idem.od_del k l) ks l
  = List.filter (fun kv => negb (List.existsb (String.eqb (fst kv)) ks)) l.
Proof.
  revert l. induction ks as [|k ks IH]; intros l; simpl.
  - induction l as [|kv l IHl]; simpl; [reflexivity | now rewrite <- IHl].
  - rewrite IH. unfold Idem.od_del.
    induction l as [|kv l IHl]; simpl; [reflexivity|].
    destruct (String.eqb (fst kv) k); simpl; [exact IHl|].
    destruct (List.existsb (String.eqb (fst kv)) ks); simpl; [exact IHl|].
    now rewrite IHl.
Qed.

(** With unique keys, [_clean_expired] keeps exactly the entries that
    are not expired. *)
Lemma clean_expired_filter now c :
  List.NoDup (Idem.keys (Idem.cache c)) ->
  Idem.cache (Idem.clean_expired now c)
  = List.filter
      (fun kv => negb (Idem.expired now (Idem.window_seconds c) (snd kv)))
      (Idem.cache c).
Proof.
  intros Hnd. unfold Idem.clean_expired. simpl. rewrite fold_del.
  apply List.filter_ext_in. intros [k e] Hin. simpl. f_equal.
  destruct (Idem.expired now (Idem.window_seconds c) e) eqn:E.
  - apply List.existsb_exists. exists k. split; [|apply String.eqb_refl].
    unfold Idem.keys. apply List.in_map_iff. exists (k, e). split; [reflexivity|].
    apply List.filter_In. auto.
  - apply not_true_iff_false. intros H.
    apply List.existsb_exists in H as [k' [Hk' Heq]].
    apply String.eqb_eq in Heq. subst k'.
    unfold Idem.keys in Hk'. apply List.in_map_iff in Hk' as [[k1 e1] [Hk1 H1]].
    simpl in Hk1. subst k1. apply List.filter_In in H1 as [H1 H2]. simpl in H2.
    assert (e1 = e) by (eapply NoDup_keys_inj; eauto). congruence.
Qed.

Lemma NoDup_snoc (A : Type) (x : A) (ks : list A) :
  List.NoDup ks -> ~ In x ks -> List.NoDup (ks ++ [x]).
Proof.
  intros Hnd Hin. induction ks as [|a ks IH]; simpl.
  - constructor; [intros [] | constructor].
  - apply List.NoDup_cons_iff in Hnd as [Ha Hnd]. constructor.
    + rewrite List.in_app_iff. simpl. intros [H|[H|[]]]; [tauto|].
      subst. apply Hin. now left.
    + apply IH; [exact Hnd|]. intros H. apply Hin. now right.
Qed.

Lemma NoDup_tl (A : Type) (ks : list A) :
  List.NoDup ks -> List.NoDup (List.tl ks).
Proof. intros H. destruct ks; simpl; [constructor | now inversion H]. Qed.

Lemma keys_tl l : Idem.keys (List.tl l) = List.tl (Idem.keys l).
Proof. now destruct l. Qed.

Lemma check_and_store_params c id (d : P) r :
  Idem.window_seconds (snd (Idem.check_and_store c id d r)) = Idem.window_seconds c
  /\ Idem.max_size (snd (Idem.check_and_store c id d r)) = Idem.max_size c.
Proof.
  unfold Idem.check_and_store.
  destruct (Idem.od_mem id _); simpl; auto.
Qed.

Lemma clean_expired_NoDup now c :
  List.NoDup (Idem.keys (Idem.cache c)) ->
  List.NoDup (Idem.keys (Idem.cache (Idem.clean_expired now c))).
Proof.
  intros H. rewrite clean_expired_filter by exact H.
  now apply NoDup_keys_filter.
Qed.

(** Keys stay unique through every call. *)
Lemma check_and_store_NoDup c id (d : P) r :
  List.NoDup (Idem.keys (Idem.cache c)) ->
  List.NoDup (Idem.keys (Idem.cache (snd (Idem.check_and_store c id d r)))).
Proof.
  intros Hnd. apply (clean_expired_NoDup (Idem.at_clean r)) in Hnd.
  unfold Idem.check_and_store.
  generalize dependent (Idem.clean_expired (Idem.at_clean r) c).
  intros c1 Hnd.
  destruct (Idem.od_mem id (Idem.cache c1)) eqn:Hmem; simpl.
  - unfold Idem.od_move_to_end.
    destruct (Idem.od_get id (Idem.cache c1)); [|exact Hnd].
    rewrite keys_app. simpl. apply NoDup_snoc.
    + now apply NoDup_keys_filter.
    + rewrite od_del_keys. tauto.
  - apply od_mem_false in Hmem. rewrite od_set_fresh by exact Hmem.
    assert (Hall : List.NoDup (Idem.keys (Idem.cache c1 ++
              [(id, Idem.mkEntry d (Idem.at_iso r) (Idem.at_store r))]))).
    { rewrite keys_app. simpl. now apply NoDup_snoc. }
    destruct (_ <? _)%Z; [|exact Hall].
    unfold Idem.od_popitem_first. rewrite keys_tl. now apply NoDup_tl.
Qed.

Lemma run_cons c id (d : P) r calls :
  snd (Idem.run c ((id, d, r) :: calls))
  = snd (Idem.run (snd (Idem.check_and_store c id d r)) calls).
Proof.
  simpl. destruct (Idem.check_and_store c id d r) as [b c1]. simpl.
  now destruct (Idem.run c1 calls).
Qed.

Lemma run_invariant c (calls : list (Idem.Call P)) :
  List.NoDup (Idem.keys (Idem.cache c)) ->
  List.NoDup (Idem.keys (Idem.cache (snd (Idem.run c calls))))
  /\ Idem.window_seconds (snd (Idem.run c calls)) = Idem.window_seconds c
  /\ Idem.max_size (snd (Idem.run c calls)) = Idem.max_size c.
Proof.
  revert c. induction calls as [|[[id d] r] calls IH]; intros c Hnd.
  - simpl. auto.
  - rewrite run_cons.
    destruct (IH _ (check_and_store_NoDup c id d r Hnd)) as (H1 & H2 & H3).
    destruct (check_and_store_params c id d r) as [H4 H5].
    repeat split; congruence.
Qed.




(** Cleaning keeps a live entry while its window has not elapsed. *)
Lemma live_clean c id t0 U now :
  Idem.live id t0 U (Idem.cache c) ->
  List.NoDup (Idem.keys (Idem.cache c)) ->
  now - t0 <= Idem.window_seconds c ->
  Idem.live id t0 U (Idem.cache (Idem.clean_expired now c)).
Proof.
  intros (pre & e & post & Hl & He & Hincl) Hnd Hwin.
  rewrite clean_expired_filter by exact Hnd.
  rewrite Hl, List.filter_app. simpl.
  assert (Hexp : Idem.expired now (Idem.window_seconds c) e = false).
  { unfold Idem.expired. apply Qgtb_false. now rewrite He. }
  rewrite Hexp. simpl.
  eexists _, e, _. split; [reflexivity|]. split; [exact He|].
  intros x Hx. apply Hincl. eapply keys_filter_incl. exact Hx.
Qed.


(** A call that reports "new" leaves its entry most recently used. *)
Lemma live_first c id (d : P) r U :
  (1 <= Idem.max_size c)%Z ->
  fst (Idem.check_and_store c id d r) = false ->
  Idem.live id (Idem.at_store r) U
    (Idem.cache (snd (Idem.check_and_store c id d r))).
Proof.
  unfold Idem.check_and_store.
  change (Idem.max_size c)
    with (Idem.max_size (Idem.clean_expired (Idem.at_clean r) c)).
  generalize (Idem.clean_expired (Idem.at_clean r) c). intros c1 Hmax.
  destruct (Idem.od_mem id (Idem.cache c1)) eqn:Hmem; simpl; [discriminate|].
  intros _. apply od_mem_false in Hmem. rewrite od_set_fresh by exact Hmem.
  destruct (_ <? _)%Z eqn:Hlt.
  - destruct (Idem.cache c1) as [|p l'].
    + apply Z.ltb_lt in Hlt. simpl in Hlt. lia.
    + simpl. eexists l', _, []. split; [reflexivity|].
      split; [reflexivity | intros x []].
  - eexists _, _, []. split; [reflexivity|].
    split; [reflexivity | intros x []].
Qed.


Lemma live_hit c id t0 U (d : P) r :
  List.NoDup (Idem.keys (Idem.cache c)) ->
  Idem.live id t0 U (Idem.cache c) ->
  Idem.at_clean r - t0 <= Idem.window_seconds c ->
  fst (Idem.check_and_store c id d r) = true.
Proof.
  intros Hnd Hlive Hwin.
  pose proof (live_clean c id t0 U _ Hlive Hnd Hwin) as (pre & e & post & Hl & _).
  unfold Idem.check_and_store.
  destruct (Idem.od_mem id _) eqn:Hmem; [reflexivity|].
  apply od_mem_false in Hmem. exfalso. apply Hmem.
  rewrite Hl, keys_app. simpl. apply List.in_app_iff. right. now left.
Qed.




End IdemFacts.




(** ** Validation and clipping of order intents *)

Section IntentFacts.
Import Intent.

Lemma price_of_pos sym : 0 < price_of sym.
Proof.
  unfold price_of, mock_prices. cbn [table_get].
  repeat (destruct (String.eqb _ sym); [reflexivity|]). reflexivity.
Qed.

Lemma check_limit_price_clip o a :
  l_clipped_size (check_limit_price o a) = l_clipped_size a.
Proof.
  unfold check_limit_price.
  destruct (type o); [reflexivity|].
  destruct (limit_px o); [|reflexivity].
  destruct (px_truthy _); [|reflexivity].
  destruct (negb _); reflexivity.
Qed.

Lemma check_tif_clip o a : l_clipped_size (check_tif o a) = l_clipped_size a.
Proof. unfold check_tif. destruct (negb _); reflexivity. Qed.

(** The clip candidate is decided by the position rule whenever that rule
    is violated, whatever the earlier rules have stored. *)
Lemma clipped_size_position o pos :
  dict_truthy pos = true ->
  max_position_size default_limits
    < Qabs (current_pos pos (symbol o) + signed_size o) ->
  clipped_size (validate_order_intent o pos)
  = Some (Qminimum (size o)
            (max_position_size default_limits
             - Qabs (current_pos pos (symbol o)))).
Proof.
  intros Ht Hv. unfold validate_order_intent. cbn [clipped_size].
  rewrite check_tif_clip, check_limit_price_clip.
  unfold check_position. rewrite Ht.
  apply Qgtb_true in Hv. rewrite Hv. reflexivity.
Qed.

Lemma assign_size_ok o v o' : assign_size o v = Ok o' -> o' = with_size o v.
Proof.
  unfold assign_size, field_gt0, validate_size.
  destruct (Qgtb v 0); [|discriminate].
  destruct (Qle_bool v 0); [discriminate|].
  destruct (Qgtb v 1000); [discriminate|]. now intros [= <-].
Qed.

Lemma clipped_size_le o pos c :
  clipped_size (validate_order_intent o pos) = Some c -> c <= size o.
Proof.
  unfold validate_order_intent. cbn [clipped_size].
  rewrite check_tif_clip, check_limit_price_clip.
  unfold check_position, check_notional, check_max_size, check_min_size.
  destruct (dict_truthy pos && Qgtb (Qabs (current_pos pos (symbol o) + signed_size o))
              (max_position_size default_limits)) eqn:Hp.
  - apply andb_true_iff in Hp as [-> ->]. cbn [l_clipped_size set_clip].
    set (headroom := max_position_size default_limits
                     - Qabs (current_pos pos (symbol o))).
    destruct (Qminimum_spec (size o) headroom) as [[_ ->]|[H ->]];
      intros [= <-]; [apply Qle_refl | now apply Qlt_le_weak].
  - assert (Hskip : forall a,
        l_clipped_size
          (if dict_truthy pos then
             if Qgtb (Qabs (current_pos pos (symbol o) + signed_size o))
                  (max_position_size default_limits)
             then set_clip
                    (Qminimum (size o)
                       (max_position_size default_limits
                        - Qabs (current_pos pos (symbol o))))
                    (add_error
                       (PositionExceeds
                          (Qabs (current_pos pos (symbol o) + signed_size o))
                          (max_position_size default_limits)) a)
             else a
           else a) = l_clipped_size a).
    { intros a. destruct (dict_truthy pos); [|reflexivity].
      cbn [andb] in Hp. now rewrite Hp. }
    rewrite Hskip. clear Hskip Hp.
    destruct (Qgtb (size o * price_of (symbol o)) (max_notional default_limits)) eqn:Hn.
    + cbn [l_clipped_size set_clip]. intros H.
      assert (Hc : c = max_notional default_limits / price_of (symbol o))
        by congruence.
      rewrite Hc. clear H Hc.
      apply Qgtb_true in Hn. pose proof (price_of_pos (symbol o)) as Hpos.
      apply Qlt_le_weak. apply Qlt_shift_div_r; assumption.
    + destruct (Qgtb (size o) (max_size default_limits)) eqn:Hm.
      * cbn [l_clipped_size set_clip]. intros H.
        assert (Hc : c = max_size default_limits) by congruence.
        rewrite Hc. clear H Hc.
        apply Qgtb_true in Hm. now apply Qlt_le_weak.
      * destruct (Qltb _ _); discriminate.
Qed.

(** Part of C4 that the code satisfies: whenever [clip_to_risk] returns,
    the size it returns does not exceed the original size. *)
Lemma clip_to_risk_never_increases o pos o' :
  clip_to_risk o pos = Ok o' -> size o' <= size o.
Proof.
  unfold clip_to_risk.
  destruct (clipped_size (validate_order_intent o pos)) as [c|] eqn:Hc.
  - intros H. apply assign_size_ok in H. subst o'. simpl.
    eapply clipped_size_le. exact Hc.
  - intros [= <-]. apply Qle_refl.
Qed.

End IntentFacts.

(** C4, failing input. A market BUY of 1 BTC against a current BTC position
    of 999.5 violates the notional rule (bound 10000/50000 = 0.2) and the
    position rule (headroom 0.5). [clip_to_risk] returns size 0.5, the
    candidate of the rule evaluated last, not the smallest violated bound
    0.2; the returned size still breaks the notional cap. *)
Theorem clip_to_risk_last_rule_wins :
  let o := Intent.mkIntent "BTC" Intent.BUY 1 Intent.MARKET "intent-1" None
             Intent.GTC None 0 in
  let pos := Some ({[ "BTC"%string := 1999 # 2 ]} : gmap string Q) in
  Intent.well_formed o
  /\ (exists o', Intent.clip_to_risk o pos = Ok o'
                 /\ Intent.size o' == 1 # 2
                 /\ Intent.max_notional Intent.default_limits
                    < Intent.size o' * Intent.price_of (Intent.symbol o'))
  /\ (exists b1 b2, Intent.spec_violated_bounds o pos = [b1; b2]
                    /\ b1 == 1 # 5 /\ b2 == 1 # 2).
Proof.
  split; [|split].
  - split; [now left|]. split; [reflexivity|]. split; [|exact I].
    unfold Qle. simpl. lia.
  - eexists. split; [vm_compute; reflexivity|]. split; reflexivity.
  - eexists _, _. split; [vm_compute; reflexivity|]. split; reflexivity.
Qed.

(** C10. When the current position of the intent's symbol already has
    magnitude at or above [max_position_size] and the position rule is
    violated, the clip candidate of [validate_order_intent] is zero or
    negative and [clip_to_risk] raises instead of returning an intent. *)
Theorem clip_to_risk_raises_without_headroom
    (o : Intent.OrderIntent) (pos : option (gmap string Q)) :
  Intent.dict_truthy pos = true ->
  Intent.max_position_size Intent.default_limits
    <= Qabs (Intent.current_pos pos (Intent.symbol o)) ->
  Intent.max_position_size Intent.default_limits
    < Qabs (Intent.current_pos pos (Intent.symbol o) + Intent.signed_size o) ->
  exists c msg,
    Intent.clipped_size (Intent.validate_order_intent o pos) = Some c
    /\ c <= 0
    /\ Intent.clip_to_risk o pos = Raise msg.
Proof.
  intros Ht Hcur Hnew.
  pose proof (clipped_size_position o pos Ht Hnew) as Hc.
  set (c := Qminimum (Intent.size o)
              (Intent.max_position_size Intent.default_limits
               - Qabs (Intent.current_pos pos (Intent.symbol o)))) in *.
  assert (Hle : c <= 0).
  { unfold c.
    destruct (Qminimum_spec (Intent.size o)
                (Intent.max_position_size Intent.default_limits
                 - Qabs (Intent.current_pos pos (Intent.symbol o))))
      as [[H ->]|[H ->]]; lra. }
  exists c, "ensure this value is greater than 0"%string.
  split; [exact Hc|]. split; [exact Hle|].
  unfold Intent.clip_to_risk. rewrite Hc.
  unfold Intent.assign_size, Intent.field_gt0.
  apply Qgtb_false in Hle. now rewrite Hle.
Qed.

Lemma clip_to_risk_raises_without_headroom_witness :
  exists c msg,
    Intent.clipped_size
      (Intent.validate_order_intent
         (Intent.mkIntent "BTC" Intent.BUY 1 Intent.MARKET "intent-1" None
            Intent.GTC None 0)
         (Some ({[ "BTC"%string := 1000 ]} : gmap string Q))) = Some c
    /\ c <= 0
    /\ Intent.clip_to_risk
         (Intent.mkIntent "BTC" Intent.BUY 1 Intent.MARKET "intent-1" None
            Intent.GTC None 0)
         (Some ({[ "BTC"%string := 1000 ]} : gmap string Q)) = Raise msg.
Proof.
  apply clip_to_risk_raises_without_headroom.
  - vm_compute. reflexivity.
  - vm_compute. discriminate.
  - vm_compute. reflexivity.
Defined.

(** ** The token bucket *)

Section BucketFacts.
Import Bucket.

Lemma refill_zero_rate b now : rps b == 0 -> refill b now = b.
Proof.
  intros H. unfold refill.
  assert (Hz : Qgtb ((now - last_refill b) * rps b) 0 = false).
  { apply Qgtb_false. rewrite H. lra. }
  now rewrite Hz.
Qed.

Lemma acquire_zero_rate_take b timeout r :
  rps b == 0 -> 1 <= tokens b ->
  acquire b 1 timeout r = (Ok true, consume b (tokens b) 1 r).
Proof.
  intros Hr Ht. unfold acquire. rewrite refill_zero_rate by exact Hr.
  assert (Hg : Qgeb (tokens b) (inject_Z 1) = true) by now apply Qgeb_true.
  now rewrite Hg.
Qed.

Lemma acquire_zero_rate_empty b requested timeout r :
  rps b == 0 -> tokens b < inject_Z requested ->
  acquire b requested timeout r = (Raise "float division by zero", b).
Proof.
  intros Hr Ht. unfold acquire. rewrite refill_zero_rate by exact Hr.
  apply Qgeb_false in Ht. rewrite Ht.
  apply Qeq_bool_iff in Hr. now rewrite Hr.
Qed.

Lemma acquire_all_cons b n t r rest :
  acquire_all b ((n, t, r) :: rest)
  = (fst (acquire b n t r) :: fst (acquire_all (snd (acquire b n t r)) rest),
     snd (acquire_all (snd (acquire b n t r)) rest)).
Proof.
  simpl. destruct (acquire b n t r) as [out b1]. simpl.
  now destruct (acquire_all b1 rest).
Qed.

(** With [rps = 0] a bucket holding [n] tokens serves [n] single-token
    calls and is empty afterwards. *)
Lemma acquire_all_zero_rate (calls : list (Z * Reading)) b :
  rps b == 0 ->
  tokens b == inject_Z (Z.of_nat (length calls)) ->
  let res := acquire_all b (List.map (fun c => (1%Z, fst c, snd c)) calls) in
  fst res = List.repeat (Ok true) (length calls)
  /\ rps (snd res) == 0 /\ tokens (snd res) == 0.
Proof.
  revert b. induction calls as [|[t r] calls IH]; intros b Hr Ht.
  - simpl in *. split; [reflexivity|]. split; assumption.
  - cbn [List.map fst snd length] in *.
    rewrite Nat2Z.inj_succ in Ht. unfold Z.succ in Ht.
    rewrite inject_Z_plus in Ht.
    assert (H0 : 0 <= inject_Z (Z.of_nat (length calls))).
    { change 0 with (inject_Z 0). rewrite <- Zle_Qle. lia. }
    rewrite acquire_all_cons, acquire_zero_rate_take; [|exact Hr|].
    2: { rewrite Ht. change (inject_Z 1) with 1. lra. }
    cbn [fst snd].
    destruct (IH (consume b (tokens b) 1 r)) as (H1 & H2 & H3).
    + exact Hr.
    + simpl. rewrite Ht. change (inject_Z 1) with 1. lra.
    + cbn zeta in H1, H2, H3. rewrite H1. cbn [List.repeat]. auto.
Qed.

(** A request for a non-negative number of tokens leaves at most [burst]
    tokens: both refills are capped at [burst] and the request is only
    subtracted. *)
Lemma acquire_keeps_upper_bound b requested timeout r :
  tokens b <= inject_Z (burst b) ->
  (0 <= requested)%Z ->
  tokens (snd (acquire b requested timeout r)) <= inject_Z (burst b)
  /\ burst (snd (acquire b requested timeout r)) = burst b.
Proof.
  intros Hhi Hr0.
  assert (Hq0 : 0 <= inject_Z requested).
  { change 0 with (inject_Z 0). now rewrite <- Zle_Qle. }
  assert (Hb1 : tokens (refill b (at_lock r)) <= inject_Z (burst b)
                /\ burst (refill b (at_lock r)) = burst b).
  { unfold refill. destruct (Qgtb _ 0); [|now split].
    split; [|reflexivity]. cbn [tokens].
    destruct (Qminimum_spec (inject_Z (burst b))
                (tokens b + (at_lock r - last_refill b) * rps b))
      as [[H ->]|[H ->]]; lra. }
  unfold acquire. destruct Hb1 as [Hhi1 Hbb].
  generalize dependent (refill b (at_lock r)). intros b1 Hhi1 Hbb.
  destruct (Qgeb (tokens b1) (inject_Z requested)).
  - cbn [snd consume tokens burst]. split; [lra | exact Hbb].
  - destruct (Qeq_bool (rps b1) 0); [split; [exact Hhi1 | exact Hbb]|].
    destruct (Qle_bool _ _); [|split; [exact Hhi1 | exact Hbb]].
    cbn [snd consume tokens burst]. split; [|exact Hbb]. rewrite Hbb.
    destruct (Qminimum_spec (inject_Z (burst b))
                (tokens b1 + (inject_Z requested - tokens b1) / rps b1 * rps b1))
      as [[H ->]|[H ->]]; lra.
Qed.

End BucketFacts.

(** C2, failing input. On a bucket built with [burst = N] and [rps = 0],
    [N] sequential [acquire(1)] calls return [True]; the next
    [acquire(1, timeout_ms=0)] does not return [False]: it raises
    [ZeroDivisionError] at [tokens_needed / self.rps]. *)
Theorem acquire_zero_rate_raises_when_empty
    (name : string) (t0 : Q) (calls : list (Z * Bucket.Reading))
    (r : Bucket.Reading) :
  let N := length calls in
  let b0 := Bucket.init 0 (Z.of_nat N) name t0 in
  let res := Bucket.acquire_all b0 (List.map (fun c => (1%Z, fst c, snd c)) calls) in
  fst res = List.repeat (Ok true) N
  /\ fst (Bucket.acquire (snd res) 1 0 r) = Raise "float division by zero".
Proof.
  intros N b0 res.
  destruct (acquire_all_zero_rate calls b0) as (H1 & H2 & H3);
    [reflexivity | reflexivity |].
  fold res in H1, H2, H3. split; [exact H1|].
  rewrite acquire_zero_rate_empty; [reflexivity | exact H2|].
  rewrite H3. reflexivity.
Qed.

(** C6, failing input. On a full bucket with [burst = 1] and [rps = 100],
    [acquire(2, timeout_ms=200)] waits 0.01 s, returns [True] and leaves
    [tokens = min(1, 2) - 2 = -1], below zero. *)
Theorem acquire_over_burst_goes_negative :
  let b := Bucket.init 100 1 "order_limiter" 0 in
  let res := Bucket.acquire b 2 200 (Bucket.mkReading 0 0 (1 # 100)) in
  Bucket.within_bounds b
  /\ fst res = Ok true
  /\ Bucket.tokens (snd res) == -1
  /\ ~ Bucket.within_bounds (snd res).
Proof.
  intros b res. split; [|split; [|split]].
  - split; vm_compute; discriminate.
  - vm_compute. reflexivity.
  - vm_compute. reflexivity.
  - intros [H _]. vm_compute in H. apply H. reflexivity.
Qed.

(** ** The budget guard *)

Section BudgetFacts.
Import Budget.

Lemma prune_keeps_fresh cutoff rs r :
  cutoff <= timestamp r -> prune cutoff (rs ++ [r]) <> [].
Proof.
  intros H. induction rs as [|r0 rs IH]; simpl.
  - apply Qltb_false in H. rewrite H. discriminate.
  - destruct (Qltb (timestamp r0) cutoff); [exact IH | discriminate].
Qed.

Lemma check_budget_limit_params g now :
  let g' := snd (check_budget_limit g now) in
  records g' = records g /\ initial_balance g' = initial_balance g
  /\ max_drawdown_pct g' = max_drawdown_pct g
  /\ window_seconds g' = window_seconds g.
Proof.
  unfold check_budget_limit.
  destruct (records g) eqn:E; [cbn; rewrite E; auto|].
  destruct (Qeq_bool _ 0); [cbn; rewrite E; auto|].
  destruct (_ && _); [cbn; rewrite E; auto|].
  destruct (_ && _); cbn; rewrite E; auto.
Qed.

Lemma record_pnl_params g realized simulated now now_trip :
  let g' := snd (record_pnl g realized simulated now now_trip) in
  initial_balance g' = initial_balance g
  /\ max_drawdown_pct g' = max_drawdown_pct g
  /\ window_seconds g' = window_seconds g.
Proof.
  unfold record_pnl.
  match goal with
  | |- context [check_budget_limit ?g1 _] =>
      destruct (check_budget_limit_params g1 now_trip) as (_ & H1 & H2 & H3)
  end.
  cbn zeta in *. rewrite H1, H2, H3. auto.
Qed.

Lemma record_all_params g calls :
  initial_balance (record_all g calls) = initial_balance g
  /\ max_drawdown_pct (record_all g calls) = max_drawdown_pct g
  /\ window_seconds (record_all g calls) = window_seconds g.
Proof.
  revert g. induction calls as [|[[[re si] now] nt] calls IH]; intros g; [now simpl|].
  simpl. destruct (IH (snd (record_pnl g re si now nt))) as (H1 & H2 & H3).
  destruct (record_pnl_params g re si now nt) as (H4 & H5 & H6).
  cbn zeta in *. repeat split; congruence.
Qed.

(** After [_check_budget_limit] on a non-empty window the flag says
    exactly whether the drawdown is at or above the limit. *)
Lemma check_budget_limit_flag g now :
  records g <> [] -> 0 < initial_balance g ->
  let g' := snd (check_budget_limit g now) in
  triggered g'
  = Qgeb (Qabs (window_sum (records g)) / initial_balance g * 100)
         (max_drawdown_pct g).
Proof.
  intros Hne Hb. unfold check_budget_limit.
  destruct (records g) as [|r0 rs] eqn:E; [contradiction|].
  assert (Hz : Qeq_bool (initial_balance g) 0 = false).
  { apply Qeq_bool_pos. lra. }
  rewrite Hz. cbn zeta.
  set (dd := Qabs (window_sum (r0 :: rs)) / initial_balance g * 100).
  destruct (Qgeb dd (max_drawdown_pct g)) eqn:Hg.
  - destruct (triggered g) eqn:Ht; simpl.
    + apply Qgeb_true in Hg. apply Qle_bool_iff in Hg.
      unfold Qltb. fold (Qgeb dd (max_drawdown_pct g)).
      unfold Qgeb. rewrite Hg. simpl. exact Ht.
    + reflexivity.
  - destruct (triggered g) eqn:Ht; simpl.
    + unfold Qltb. fold (Qgeb dd (max_drawdown_pct g)). rewrite Hg. reflexivity.
    + unfold Qltb. fold (Qgeb dd (max_drawdown_pct g)). rewrite Hg. simpl.
      exact Ht.
Qed.

End BudgetFacts.

(** ** The budget guard in binary64 *)

Section BudgetFloatFacts.
Import PrimFloat.
Import BudgetF.
Local Open Scope float_scope.

Variable py_sum : list float -> float.







End BudgetFloatFacts.

Section BudgetFloatRuns.
Import PrimFloat.
Import BudgetF.
Local Open Scope float_scope.



End BudgetFloatRuns.

(** ** The live guard *)

Section GuardFacts.
Import Breaker.

(** A read through [is_tripped] either leaves the breaker as it is or
    clears [tripped_at] because the cooldown has elapsed. *)
Lemma is_tripped_effect b now :
  snd (is_tripped b now) = b
  \/ (snd (is_tripped b now) = with_tripped_at b None
      /\ exists t, tripped_at b = Some t
                   /\ inject_Z (reset_after_sec (config b)) < now - t).
Proof.
  unfold is_tripped. destruct (tripped_at b) as [t|] eqn:Et; [|now left].
  destruct (negb (truthy (Some t))); [now left|].
  destruct (Qgtb _ _) eqn:Eg; [|now left].
  right. split; [reflexivity|]. exists t. split; [reflexivity|].
  now apply Qgtb_true.
Qed.

Lemma get_status_state b now : snd (get_status b now) = snd (is_tripped b now).
Proof. unfold get_status. now destruct (is_tripped b now). Qed.

Lemma get_all_status_lookup m clock p :
  snd (get_all_status m clock) !! p
  = (fun b => snd (is_tripped b (clock p))) <$> (m !! p).
Proof.
  unfold get_all_status. cbn [snd]. rewrite map_lookup_imap.
  destruct (m !! p) as [b|]; simpl; [|reflexivity].
  now rewrite get_status_state.
Qed.

Lemma check_live_guard_state w clock :
  snd (LiveGuard.check_live_guard w clock) = w
  \/ snd (LiveGuard.check_live_guard w clock)
     = LiveGuard.mkWorld (LiveGuard.sampler w)
         (snd (get_all_status (LiveGuard.breakers w) clock))
         (LiveGuard.budget w).
Proof.
  unfold LiveGuard.check_live_guard.
  destruct (LiveGuard.sampler w) as [s|]; [|now left].
  destruct (negb _); [now left|].
  unfold get_all_status. cbn [snd].
  destruct (negb (is_nil _)); [now right|].
  destruct (Budget.get_status _) as [st|msg]; [|now right].
  destruct (Budget.st_triggered st); now right.
Qed.

End GuardFacts.

(** C5 (amended). [check_live_guard] returns its verdict and leaves the
    budget guard and the data-health provider unchanged. The registry of
    breakers keeps its paths, and every breaker is left as it was except
    that a tripped breaker whose cooldown has elapsed at the time it is
    examined has its [tripped_at] cleared. *)
Theorem check_live_guard_frame (w : LiveGuard.World) (clock : string -> Q) :
  let w' := snd (LiveGuard.check_live_guard w clock) in
  LiveGuard.sampler w' = LiveGuard.sampler w
  /\ LiveGuard.budget w' = LiveGuard.budget w
  /\ (forall p, LiveGuard.breakers w !! p = None ->
                LiveGuard.breakers w' !! p = None)
  /\ (forall p b, LiveGuard.breakers w !! p = Some b ->
        LiveGuard.breakers w' !! p = Some b
        \/ (LiveGuard.breakers w' !! p = Some (Breaker.with_tripped_at b None)
            /\ exists t, Breaker.tripped_at b = Some t
                 /\ inject_Z (Breaker.reset_after_sec (Breaker.config b))
                    < clock p - t)).
Proof.
  intros w'. unfold w'.
  destruct (check_live_guard_state w clock) as [-> | ->].
  - repeat split; auto.
  - cbn [LiveGuard.sampler LiveGuard.budget LiveGuard.breakers].
    split; [reflexivity|]. split; [reflexivity|]. split.
    + intros p Hp. now rewrite get_all_status_lookup, Hp.
    + intros p b Hp. rewrite get_all_status_lookup, Hp. simpl.
      destruct (is_tripped_effect b (clock p)) as [-> | [-> Ht]]; auto.
Qed.

(** C5 as stated fails: a breaker that tripped at time 5 and is examined at
    time 100, past its 60 s cooldown, is reset by the call, which answers
    "all_green". *)
Lemma check_live_guard_resets_breaker_counterexample :
  let tripped :=
    List.fold_left Breaker.record_failure [1; 2; 3; 4; 5]
      (Breaker.init "order" Breaker.default_config 0) in
  let w := LiveGuard.mkWorld (Some (LiveGuard.mkSampler "healthy" []))
             {[ "order"%string := tripped ]} (Budget.init 10 24) in
  let r := LiveGuard.check_live_guard w (fun _ => 100) in
  fst (fst (fst r)) = true
  /\ Breaker.tripped_at <$> (LiveGuard.breakers w !! "order"%string) = Some (Some 5)
  /\ Breaker.tripped_at <$> (LiveGuard.breakers (snd r) !! "order"%string) = Some None
  /\ snd r <> w.
Proof.
  intros tripped w r.
  split; [|split; [|split]]; try (vm_compute; reflexivity).
  intros E.
  apply (f_equal (fun x => Breaker.tripped_at
                           <$> (LiveGuard.breakers x !! "order"%string))) in E.
  vm_compute in E. discriminate.
Qed.

(** ** The retrying submission client *)

Section PrivateFacts.
Import Private.
Context {Payload : Type}.
Variable submit : Payload -> Z -> result SendResult.
Variable clock : Z -> Q.
Hypothesis Hnet : always_network submit.

(** From attempt [k] on, with [n >= 1] attempts left, the loop submits
    [n] times and returns what the last attempt returned. *)
Lemma retry_loop_network c payload n k :
  (Z.of_nat k + Z.of_nat n = max_retries c)%Z -> (1 <= n)%nat ->
  let r := retry_loop submit clock c payload
             (List.map Z.of_nat (List.seq k n)) in
  invocations (snd r) = n
  /\ Ok (fst r) = submit payload (max_retries c - 1)%Z.
Proof.
  revert k. induction n as [|n IH]; intros k Hk Hn; [lia|].
  cbn [List.seq List.map retry_loop].
  destruct (Hnet payload (Z.of_nat k)) as (r & Hs & Hf & He).
  rewrite Hs, Hf. unfold is_error. rewrite He. cbn [andb orb].
  destruct (Z.of_nat k <? max_retries c - 1)%Z eqn:Hlt.
  - apply Z.ltb_lt in Hlt.
    destruct (IH (S k)) as [H1 H2]; [lia | lia |].
    cbn zeta in H1, H2.
    destruct (retry_loop submit clock c payload
                (List.map Z.of_nat (List.seq (S k) n))) as [r' trace].
    cbn [fst snd] in *. split; [|exact H2].
    unfold invocations in *. cbn [List.filter is_submission length].
    now rewrite H1.
  - apply Z.ltb_ge in Hlt. cbn [fst snd]. split.
    + unfold invocations. cbn. lia.
    + rewrite <- Hs. f_equal. lia.
Qed.

End PrivateFacts.

(** C3 (amended). When every submission attempt yields a failure
    classified as [NETWORK] and [max_retries >= 1], [send_order] with
    [dry_run = False] invokes the submission exactly [max_retries] times in
    total (3 by default) and returns the failure of the last attempt. *)
Theorem send_order_network_attempts
    (Payload : Type) (submit : Payload -> Z -> result Private.SendResult)
    (clock : Z -> Q) (c : Private.HLPrivateClient) (payload : Payload)
    (uuid : string) :
  (1 <= Private.max_retries c)%Z ->
  Private.always_network submit ->
  let r := Private.send_order submit clock c payload false uuid in
  Private.invocations (snd r) = Z.to_nat (Private.max_retries c)
  /\ Ok (fst r) = submit payload (Private.max_retries c - 1)%Z.
Proof.
  intros Hm Hnet. unfold Private.send_order, Private.range.
  apply retry_loop_network; [exact Hnet | lia | lia].
Qed.

Lemma send_order_network_attempts_witness :
  let submit := fun (_ : unit) (_ : Z) =>
                  Ok (Private.failure Private.NETWORK "connection reset" None) in
  let r := Private.send_order submit (fun _ => 0) Private.init tt false "" in
  Private.invocations (snd r) = Z.to_nat (Private.max_retries Private.init)
  /\ Ok (fst r) = submit tt (Private.max_retries Private.init - 1)%Z.
Proof.
  apply (send_order_network_attempts unit
           (fun _ _ => Ok (Private.failure Private.NETWORK "connection reset" None))
           (fun _ => 0) Private.init tt "").
  - simpl. lia.
  - intros payload attempt. eexists. repeat split.
Defined.

(** C3 as stated fails: the default client ([max_retries = 3]) submits 3
    times, not [max_retries + 1 = 4]. *)
Lemma send_order_network_attempts_counterexample :
  let submit := fun (_ : unit) (_ : Z) =>
                  Ok (Private.failure Private.NETWORK "connection reset" None) in
  let r := Private.send_order submit (fun _ => 0) Private.init tt false "" in
  Private.always_network submit
  /\ Private.invocations (snd r) = 3%nat
  /\ Private.invocations (snd r)
     <> Z.to_nat (Private.max_retries Private.init + 1).
Proof.
  intros submit r. split; [|split].
  - intros payload attempt. eexists. repeat split.
  - vm_compute. reflexivity.
  - vm_compute. discriminate.
Qed.

(** ** The order bus *)

Section OrderIdFacts.

Local Abbreviation chars := String.list_ascii_of_string.

Lemma chars_append_sep a b :
  In "_"%char (chars (a ++ String "_" b)).
Proof. induction a as [|c a IH]; simpl; auto. Qed.

Lemma uint_no_sep d : ~ In "_"%char (chars (NilEmpty.string_of_uint d)).
Proof.
  induction d; simpl; try tauto; intros [H|H]; try discriminate; auto.
Qed.

Lemma py_str_no_sep n : ~ In "_"%char (chars (Bus.py_str n)).
Proof.
  unfold Bus.py_str, NilEmpty.string_of_int.
  destruct (Z.to_int n) as [d|d]; [apply uint_no_sep|].
  simpl. intros [H|H]; [discriminate | now apply uint_no_sep in H].
Qed.

Lemma py_str_inj a b : Bus.py_str a = Bus.py_str b -> a = b.
Proof.
  unfold Bus.py_str. intros H.
  apply (f_equal NilEmpty.int_of_string) in H.
  rewrite !NilEmpty.isi in H. injection H as H.
  apply (f_equal Z.of_int) in H. now rewrite !DecimalZ.of_to in H.
Qed.

(** The text after the last separator determines the split. *)
Lemma append_sep_inj i1 i2 d1 d2 :
  ~ In "_"%char (chars d1) -> ~ In "_"%char (chars d2) ->
  (i1 ++ String "_" d1 = i2 ++ String "_" d2)%string -> i1 = i2 /\ d1 = d2.
Proof.
  intros H1 H2. revert i2.
  induction i1 as [|c1 i1 IH]; intros [|c2 i2]; intros E;
    cbv [String.append] in E; fold String.append in E.
  - injection E as E. auto.
  - injection E as _ E. exfalso. apply H1. rewrite E. apply chars_append_sep.
  - injection E as _ E. exfalso. apply H2. rewrite <- E. apply chars_append_sep.
  - injection E as -> E. destruct (IH _ E) as [-> ->]. auto.
Qed.

Lemma make_order_id_inj i1 t1 i2 t2 :
  Bus.make_order_id i1 t1 = Bus.make_order_id i2 t2 <->
  i1 = i2 /\ Bus.py_int t1 = Bus.py_int t2.
Proof.
  unfold Bus.make_order_id. split.
  - intros E.
    change (String "o" (String "r" (String "d" (String "_"
              (i1 ++ String "_" (Bus.py_str (Bus.py_int t1))))))
            = String "o" (String "r" (String "d" (String "_"
              (i2 ++ String "_" (Bus.py_str (Bus.py_int t2)))))))%string in E.
    injection E as E.
    apply append_sep_inj in E as [-> E]; try apply py_str_no_sep.
    split; [reflexivity | now apply py_str_inj].
  - intros [-> ->]. reflexivity.
Qed.

Lemma clip_to_risk_intent_id o pos o' :
  Intent.clip_to_risk o pos = Ok o' -> Intent.intent_id o' = Intent.intent_id o.
Proof.
  unfold Intent.clip_to_risk.
  destruct (Intent.clipped_size _) as [c|].
  - intros H. apply assign_size_ok in H. now subst.
  - now intros [= <-].
Qed.

End OrderIdFacts.

(** Case analysis of one [submit] call along the branches of the source. *)
Ltac bus_unfold :=
  unfold Bus.submit, Bus.submit_body, Bus.bind, Bus.cache_check_and_store,
    Bus.reach, Bus.ret, Bus.raise, Bus.lift, Bus.log_audit_event,
    Bus.store_pending.

Ltac bus_branch :=
  match goal with
  | |- context [Idem.check_and_store ?c ?i ?d ?r] =>
      destruct (Idem.check_and_store c i d r) as [[|] ?]
  | |- context [Bus.fault ?e ?s] => destruct (Bus.fault e s) as [?|] eqn:?
  | |- context [negb (Intent.valid ?v)] => destruct (Intent.valid v) eqn:?
  | |- context [if Intent.risk_adjusted ?v then _ else _] =>
      destruct (Intent.risk_adjusted v) eqn:?
  | |- context [Intent.clip_to_risk ?o ?p] =>
      destruct (Intent.clip_to_risk o p) as [?|?] eqn:?
  | |- context [Bus.audit_ok ?e] => destruct (Bus.audit_ok e) eqn:?
  end;
  cbn [negb fst snd Bus.order_id Bus.success Bus.error_message Bus.idempotent
       Bus.audit_log Bus.idempotency_cache Bus.pending_orders].

Section BusFacts.

(** An order id that [submit] returns is the one built from the intent id
    and the clock read of that call. *)
Lemma submit_order_id bus env o pos id :
  Bus.order_id (fst (Bus.submit bus env o pos)) = Some id ->
  id = Bus.make_order_id (Intent.intent_id o) (Bus.order_time env).
Proof.
  bus_unfold. repeat bus_branch; try discriminate;
    intros [= <-]; try reflexivity;
    f_equal; eapply clip_to_risk_intent_id; eassumption.
Qed.

(** A raising [try] block has written nothing to the audit file. *)
Lemma submit_body_raise_log bus env o pos msg :
  fst (Bus.submit_body env o pos bus) = Raise msg ->
  Bus.audit_log (snd (Bus.submit_body env o pos bus)) = Bus.audit_log bus.
Proof.
  bus_unfold. repeat bus_branch; try discriminate; reflexivity.
Qed.

(** Whether the audit file accepts writes does not change the result
    that [submit] returns. *)
Lemma submit_result_audit_independent bus env o pos ok :
  fst (Bus.submit bus (Bus.with_audit_ok env ok) o pos)
  = fst (Bus.submit bus env o pos).
Proof.
  bus_unfold.
  cbn [Bus.with_audit_ok Bus.cache_reading Bus.order_time Bus.stamp
       Bus.audit_ok Bus.fault].
  destruct ok; repeat bus_branch; reflexivity.
Qed.

End BusFacts.

(** Nothing but the intent id and the whole second enters an order id:
    the order ids of two [submit] calls that both reach order-id generation
    are equal exactly when the calls carry the same intent id and their
    clock reads fall in the same whole second. *)
Theorem submit_order_ids_equal_iff
    (bus1 bus2 : Bus.OrderBus) (env1 env2 : Bus.Env)
    (o1 o2 : Intent.OrderIntent) (pos1 pos2 : option (gmap string Q))
    (id1 id2 : string) :
  Bus.order_id (fst (Bus.submit bus1 env1 o1 pos1)) = Some id1 ->
  Bus.order_id (fst (Bus.submit bus2 env2 o2 pos2)) = Some id2 ->
  (id1 = id2 <->
   Intent.intent_id o1 = Intent.intent_id o2
   /\ Bus.py_int (Bus.order_time env1) = Bus.py_int (Bus.order_time env2)).
Proof.
  intros H1 H2. apply submit_order_id in H1, H2. subst id1 id2.
  apply make_order_id_inj.
Qed.

Lemma submit_order_ids_equal_iff_witness :
  let env t := Bus.mkEnv (Idem.mkReading t t t) t t true Bus.no_fault in
  let intent id :=
    Intent.mkIntent "BTC" Intent.BUY (1 # 100) Intent.MARKET id None
      Intent.GTC None 0 in
  ("ord_a_100" = "ord_b_100"
   <-> Intent.intent_id (intent "a") = Intent.intent_id (intent "b")
       /\ Bus.py_int (Bus.order_time (env 100))
          = Bus.py_int (Bus.order_time (env (2001 # 20))))%string.
Proof.
  intros env intent.
  apply (submit_order_ids_equal_iff (Bus.init []) (Bus.init [])
           (env 100) (env (2001 # 20)) (intent "a"%string) (intent "b"%string)
           None None).
  - vm_compute. reflexivity.
  - vm_compute. reflexivity.
Defined.

(** C8, failing input. On a bus with the default cache (1000 entries),
    intent [a] is submitted at time 100, then 1000 other intents within the
    same second, then [a] again at time 100.9: its idempotency entry has
    been evicted, the call reaches order-id generation, and both calls get
    the order id [ord_a_100]. The second call overwrites the pending order
    of the first: after 1002 successful submissions the bus holds 1001
    pending orders. *)
Theorem submit_order_id_reuse_counterexample :
  let env t := Bus.mkEnv (Idem.mkReading t t t) t t true Bus.no_fault in
  let intent id :=
    Intent.mkIntent "BTC" Intent.BUY (1 # 100) Intent.MARKET id None
      Intent.GTC None 0 in
  let others :=
    List.map (fun k => (env 100, intent ("x" ++ Bus.py_str (Z.of_nat k))%string,
                        None : option (gmap string Q)))
             (List.seq 1 1000) in
  let first := Bus.submit (Bus.init []) (env 100) (intent "a"%string) None in
  let bus := snd (Bus.submit_all (snd first) others) in
  let again := Bus.submit bus (env (1009 # 10)) (intent "a"%string) None in
  Bus.success (fst first) = true
  /\ Bus.order_id (fst first) = Some "ord_a_100"%string
  /\ Bus.success (fst again) = true
  /\ Bus.order_id (fst again) = Some "ord_a_100"%string
  /\ Bus.idempotent (fst again) = false
  /\ stdpp.base.size (Bus.pending_orders bus) = 1001%nat
  /\ stdpp.base.size (Bus.pending_orders (snd again)) = 1001%nat.
Proof.
  vm_compute. repeat split.
Qed.

(** C9 (amended). Whenever the [try] block of [submit] raises, in
    validation, clipping, order-id generation or pending-order creation,
    [submit] returns a result with [success = False] that carries the
    message, and the [order_error] event keyed by the intent id is appended
    to the audit file exactly when the file accepts the write. A failing
    audit write is swallowed by [_log_audit_event] and never changes the
    result of [submit]. [submit] itself never raises. *)
Theorem submit_catches_exceptions
    (bus : Bus.OrderBus) (env : Bus.Env) (o : Intent.OrderIntent)
    (pos : option (gmap string Q)) :
  (forall ok, fst (Bus.submit bus (Bus.with_audit_ok env ok) o pos)
              = fst (Bus.submit bus env o pos))
  /\ (forall msg,
        fst (Bus.submit_body env o pos bus) = Raise msg ->
        let r := Bus.submit bus env o pos in
        Bus.success (fst r) = false
        /\ Bus.error_message (fst r) = Some msg
        /\ Bus.audit_log (snd r)
           = Bus.audit_log bus
             ++ (if Bus.audit_ok env
                 then [Bus.OrderError (Intent.intent_id o) msg (Bus.stamp env)]
                 else [])).
Proof.
  split; [intros ok; apply submit_result_audit_independent|].
  intros msg H. pose proof (submit_body_raise_log bus env o pos msg H) as Hlog.
  unfold Bus.submit.
  destruct (Bus.submit_body env o pos bus) as [[r|msg'] bus1]; [discriminate|].
  cbn [fst snd] in H, Hlog. injection H as ->.
  unfold Bus.log_audit_event. destruct (Bus.audit_ok env); cbn.
  - now rewrite Hlog.
  - rewrite Hlog, List.app_nil_r. auto.
Qed.

Lemma submit_catches_exceptions_witness :
  let env :=
    Bus.mkEnv (Idem.mkReading 100 100 100) 100 100 true
      (fun s => match s with
                | Bus.Validation => Some "boom"%string
                | _ => None
                end) in
  let o := Intent.mkIntent "BTC" Intent.BUY (1 # 100) Intent.MARKET "a" None
             Intent.GTC None 0 in
  let r := Bus.submit (Bus.init []) env o None in
  Bus.success (fst r) = false
  /\ Bus.error_message (fst r) = Some "boom"%string
  /\ Bus.audit_log (snd r)
     = [] ++ [Bus.OrderError "a" "boom" 100].
Proof.
  intros env o.
  apply (proj2 (submit_catches_exceptions (Bus.init []) env o None) "boom"%string).
  vm_compute. reflexivity.
Defined.

(** C9 as stated fails for the audit write. With an audit file that
    rejects writes, the exception of the [order_submitted] write is
    swallowed: [submit] returns [success = True] and no [order_error] event
    exists; and when validation raises, [submit] returns [success = False]
    but the [order_error] event is not appended either. *)
Lemma submit_audit_failure_counterexample :
  let o := Intent.mkIntent "BTC" Intent.BUY (1 # 100) Intent.MARKET "a" None
             Intent.GTC None 0 in
  let env := Bus.mkEnv (Idem.mkReading 100 100 100) 100 100 false Bus.no_fault in
  let env' :=
    Bus.mkEnv (Idem.mkReading 100 100 100) 100 100 false
      (fun s => match s with
                | Bus.Validation => Some "boom"%string
                | _ => None
                end) in
  let r := Bus.submit (Bus.init []) env o None in
  let r' := Bus.submit (Bus.init []) env' o None in
  Bus.success (fst r) = true /\ Bus.audit_log (snd r) = []
  /\ Bus.success (fst r') = false /\ Bus.audit_log (snd r') = [].
Proof.
  intros o env env' r r'. repeat split; vm_compute; reflexivity.
Qed.

(** * Further properties of the modelled code *)

(** ** IdempotencyCache: size bound, lookup after store, duplicates *)

Section IdemMore.
Context {P : Type}.
Implicit Types (l : list (string * Idem.Entry P)).
Implicit Types (c : Idem.IdempotencyCache P) (e : Idem.Entry P).

Lemma od_del_shrinks k l e :
  Idem.od_get k l = Some e -> (S (length (Idem.od_del k l)) <= length l)%nat.
Proof.
  induction l as [|[k' e'] l IH]; simpl; [discriminate|].
  destruct (String.eqb k' k) eqn:E; simpl.
  - intros _. pose proof (List.filter_length_le
      (fun kv : string * Idem.Entry P => negb (String.eqb (fst kv) k)) l).
    unfold Idem.od_del. lia.
  - intros H. apply IH in H. lia.
Qed.

Lemma clean_expired_length now c :
  (length (Idem.cache (Idem.clean_expired now c)) <= length (Idem.cache c))%nat.
Proof.
  unfold Idem.clean_expired. simpl. rewrite fold_del.
  apply List.filter_length_le.
Qed.

Lemma check_and_store_length c id (d : P) r :
  (0 <= Idem.max_size c)%Z ->
  (Z.of_nat (length (Idem.cache c)) <= Idem.max_size c)%Z ->
  (Z.of_nat (length (Idem.cache (snd (Idem.check_and_store c id d r))))
   <= Idem.max_size c)%Z.
Proof.
  intros H0 Hlen. pose proof (clean_expired_length (Idem.at_clean r) c) as Hc.
  unfold Idem.check_and_store.
  change (Idem.max_size c)
    with (Idem.max_size (Idem.clean_expired (Idem.at_clean r) c)) in *.
  revert Hc H0 Hlen. generalize (Idem.clean_expired (Idem.at_clean r) c).
  intros c1 Hc H0 Hlen.
  destruct (Idem.od_mem id (Idem.cache c1)) eqn:Hmem; simpl.
  - unfold Idem.od_move_to_end.
    destruct (Idem.od_get id (Idem.cache c1)) as [e|] eqn:Hget; [|lia].
    apply od_del_shrinks in Hget. rewrite List.length_app. simpl. lia.
  - apply od_mem_false in Hmem. rewrite od_set_fresh by exact Hmem.
    destruct (_ <? _)%Z eqn:Hlt.
    + unfold Idem.od_popitem_first.
      destruct (Idem.cache c1) as [|p l']; simpl in *; [lia|].
      rewrite List.length_app. simpl. lia.
    + apply Z.ltb_ge in Hlt. exact Hlt.
Qed.

Lemma get_lookup c id :
  fst (Idem.get c id) = Idem.od_get id (Idem.cache c).
Proof.
  unfold Idem.get, Idem.od_mem, Idem.od_move_to_end.
  destruct (Idem.od_get id (Idem.cache c)) as [e|] eqn:E; [|reflexivity].
  cbn [fst]. change (Idem.od_del id (Idem.cache c) ++ [(id, e)])
    with (Idem.od_del id (Idem.cache c) ++ (id, e) :: []).
  apply od_get_middle. rewrite od_del_keys. tauto.
Qed.

Lemma od_get_filter k l e f :
  Idem.od_get k l = Some e -> f (k, e) = true ->
  Idem.od_get k (List.filter f l) = Some e.
Proof.
  intros Hg Hf. induction l as [|[k' e'] l IH]; simpl in *; [discriminate|].
  destruct (String.eqb k' k) eqn:E.
  - apply String.eqb_eq in E. subst k'. injection Hg as ->.
    rewrite Hf. simpl. now rewrite String.eqb_refl.
  - destruct (f (k', e')); simpl; [rewrite E|]; auto.
Qed.

Lemma in_od_del k l kv : In kv (Idem.od_del k l) -> In kv l.
Proof. unfold Idem.od_del. intros H. now apply List.filter_In in H. Qed.

End IdemMore.

(** X1. A cache built with a non-negative [max_size] never holds more
    than [max_size] entries, whatever calls it has served. *)
Theorem cache_never_exceeds_max_size
    (P : Type) (w : Q) (m : Z) (calls : list (Idem.Call P)) :
  (0 <= m)%Z ->
  (Z.of_nat (length (Idem.cache (snd (Idem.run (Idem.init w m) calls)))) <= m)%Z.
Proof.
  intros Hm.
  assert (H : forall c : Idem.IdempotencyCache P,
             (0 <= Idem.max_size c)%Z ->
             (Z.of_nat (length (Idem.cache c)) <= Idem.max_size c)%Z ->
             (Z.of_nat (length (Idem.cache (snd (Idem.run c calls))))
              <= Idem.max_size c)%Z).
  { unfold Idem.Call in calls.
    induction calls as [|[[id d] r] calls IH]; intros c H0 Hl; [exact Hl|].
    rewrite run_cons.
    destruct (check_and_store_params c id d r) as [_ Hmx].
    rewrite <- Hmx. apply IH; rewrite Hmx; [exact H0|].
    now apply check_and_store_length. }
  apply (H (Idem.init w m)); simpl; lia.
Qed.

Lemma cache_never_exceeds_max_size_witness :
  (Z.of_nat (length (Idem.cache (snd (Idem.run (Idem.init 60 1)
      [("a"%string, tt, Idem.mkReading 0 0 0);
       ("b"%string, tt, Idem.mkReading 1 1 1)])))) <= 1)%Z.
Proof.
  apply (cache_never_exceeds_max_size unit 60 1). lia.
Defined.

(** X2. With [max_size >= 1], right after a call that reported "new",
    [get] returns the entry just stored: the payload of that call and its
    storage time. *)
Theorem get_after_store
    (P : Type) (c : Idem.IdempotencyCache P) (id : string) (d : P)
    (r : Idem.Reading) :
  (1 <= Idem.max_size c)%Z ->
  fst (Idem.check_and_store c id d r) = false ->
  fst (Idem.get (snd (Idem.check_and_store c id d r)) id)
  = Some (Idem.mkEntry d (Idem.at_iso r) (Idem.at_store r)).
Proof.
  intros Hm. rewrite get_lookup. unfold Idem.check_and_store.
  change (Idem.max_size c)
    with (Idem.max_size (Idem.clean_expired (Idem.at_clean r) c)) in Hm.
  revert Hm. generalize (Idem.clean_expired (Idem.at_clean r) c). intros c1 Hm.
  destruct (Idem.od_mem id (Idem.cache c1)) eqn:Hmem; simpl; [discriminate|].
  intros _. apply od_mem_false in Hmem. rewrite od_set_fresh by exact Hmem.
  destruct (_ <? _)%Z eqn:Hlt.
  - destruct (Idem.cache c1) as [|[k0 e0] l'].
    + apply Z.ltb_lt in Hlt. simpl in Hlt. lia.
    + simpl. apply od_get_middle. intros H. apply Hmem. simpl. now right.
  - now apply od_get_middle.
Qed.

Lemma get_after_store_witness :
  fst (Idem.get (snd (Idem.check_and_store (Idem.init 60 1000) "a"%string tt
                        (Idem.mkReading 5 6 7))) "a"%string)
  = Some (Idem.mkEntry tt 6 7).
Proof.
  apply (get_after_store unit (Idem.init 60 1000) "a"%string tt
           (Idem.mkReading 5 6 7)).
  - simpl. lia.
  - reflexivity.
Defined.

(** X3. A duplicate call changes neither the stored payload nor the
    storage time of the entry: on a cache reached from its constructor, if
    the entry of [id] is inside its window, the call reports a duplicate
    and [get] still returns the same entry (the new payload is dropped and
    the time to live is not restarted). *)
Theorem duplicate_keeps_entry
    (P : Type) (w : Q) (m : Z) (calls : list (Idem.Call P))
    (id : string) (e : Idem.Entry P) (d : P) (r : Idem.Reading) :
  let c := snd (Idem.run (Idem.init w m) calls) in
  fst (Idem.get c id) = Some e ->
  Idem.at_clean r - Idem.created_at e <= w ->
  fst (Idem.check_and_store c id d r) = true
  /\ fst (Idem.get (snd (Idem.check_and_store c id d r)) id) = Some e.
Proof.
  intros c Hget Hwin. rewrite get_lookup in *.
  destruct (run_invariant (Idem.init w m) calls) as (Hnd & Hw & _);
    [constructor|]. fold c in Hnd, Hw. simpl in Hw.
  assert (Hc1 : Idem.od_get id
                  (Idem.cache (Idem.clean_expired (Idem.at_clean r) c)) = Some e).
  { rewrite clean_expired_filter by exact Hnd.
    apply od_get_filter; [exact Hget|]. simpl.
    unfold Idem.expired. apply negb_true_iff, Qgtb_false. now rewrite Hw. }
  unfold Idem.check_and_store. revert Hc1.
  generalize (Idem.clean_expired (Idem.at_clean r) c). intros c1 Hc1.
  unfold Idem.od_mem, Idem.od_move_to_end. rewrite Hc1. cbn [fst snd Idem.cache Idem.with_cache].
  split; [reflexivity|].
  change (Idem.od_del id (Idem.cache c1) ++ [(id, e)])
    with (Idem.od_del id (Idem.cache c1) ++ (id, e) :: []).
  apply od_get_middle. rewrite od_del_keys. tauto.
Qed.

Lemma duplicate_keeps_entry_witness :
  let c := snd (Idem.run (Idem.init 60 1000)
                  [("a"%string, 1%nat, Idem.mkReading 0 0 0)]) in
  fst (Idem.check_and_store c "a"%string 2%nat (Idem.mkReading 30 30 30)) = true
  /\ fst (Idem.get (snd (Idem.check_and_store c "a"%string 2%nat
                           (Idem.mkReading 30 30 30))) "a"%string)
     = Some (Idem.mkEntry 1%nat 0 0).
Proof.
  apply (duplicate_keeps_entry nat 60 1000
           [("a"%string, 1%nat, Idem.mkReading 0 0 0)] "a"%string
           (Idem.mkEntry 1%nat 0 0) 2%nat (Idem.mkReading 30 30 30)).
  - reflexivity.
  - unfold Qle. simpl. lia.
Defined.

(** X4. After a call, no entry older than the window is left: every entry
    of the cache is inside its window at the time of the purge, or is the
    entry that this call has just stored. *)
Theorem no_stale_entry_after_call
    (P : Type) (w : Q) (m : Z) (calls : list (Idem.Call P))
    (id : string) (d : P) (r : Idem.Reading) (k : string) (e : Idem.Entry P) :
  let c := snd (Idem.run (Idem.init w m) calls) in
  In (k, e) (Idem.cache (snd (Idem.check_and_store c id d r))) ->
  Idem.at_clean r - Idem.created_at e <= w
  \/ (k = id /\ e = Idem.mkEntry d (Idem.at_iso r) (Idem.at_store r)).
Proof.
  intros c.
  destruct (run_invariant (Idem.init w m) calls) as (Hnd & Hw & _);
    [constructor|]. fold c in Hnd, Hw. simpl in Hw.
  assert (Hfresh : forall k' e',
            In (k', e') (Idem.cache (Idem.clean_expired (Idem.at_clean r) c)) ->
            Idem.at_clean r - Idem.created_at e' <= w).
  { intros k' e'. rewrite clean_expired_filter by exact Hnd.
    intros H. apply List.filter_In in H as [_ H]. simpl in H.
    apply negb_true_iff, Qgtb_false in H. now rewrite Hw in H. }
  unfold Idem.check_and_store. revert Hfresh.
  generalize (Idem.clean_expired (Idem.at_clean r) c). intros c1 Hfresh.
  destruct (Idem.od_mem id (Idem.cache c1)) eqn:Hmem; simpl.
  - unfold Idem.od_move_to_end.
    destruct (Idem.od_get id (Idem.cache c1)) as [e0|] eqn:Hget.
    + intros H. apply List.in_app_iff in H as [H|[H|[]]].
      * left. apply in_od_del in H. eauto.
      * injection H as <- <-. left. apply od_get_In in Hget. eauto.
    + intros H. left. eauto.
  - apply od_mem_false in Hmem. rewrite od_set_fresh by exact Hmem.
    assert (Hall : In (k, e) (Idem.cache c1 ++
              [(id, Idem.mkEntry d (Idem.at_iso r) (Idem.at_store r))]) ->
            Idem.at_clean r - Idem.created_at e <= w
            \/ (k = id /\ e = Idem.mkEntry d (Idem.at_iso r) (Idem.at_store r))).
    { intros H. apply List.in_app_iff in H as [H|[H|[]]]; [left; eauto|].
      injection H as <- <-. now right. }
    destruct (_ <? _)%Z; [|exact Hall].
    intros H. apply Hall. unfold Idem.od_popitem_first in H.
    destruct (Idem.cache c1 ++ _); [destruct H | now right].
Qed.

Lemma no_stale_entry_after_call_witness :
  100 - Idem.created_at (Idem.mkEntry tt 100 100) <= 60
  \/ ("b"%string = "b"%string
      /\ Idem.mkEntry tt 100 100 = Idem.mkEntry tt 100 100).
Proof.
  apply (no_stale_entry_after_call unit 60 1000
           [("a"%string, tt, Idem.mkReading 0 0 0)] "b"%string tt
           (Idem.mkReading 100 100 100) "b"%string (Idem.mkEntry tt 100 100)).
  vm_compute. now left.
Defined.

(** ** Order validation: acceptance criterion, clipping, size validator *)

Section IntentMore.
Import Intent.

Lemma check_limit_price_errors o a :
  l_errors (check_limit_price o a) = l_errors a
  /\ l_risk_adjusted (check_limit_price o a) = l_risk_adjusted a.
Proof.
  unfold check_limit_price.
  destruct (type o); [auto|].
  destruct (limit_px o); [|auto].
  destruct (px_truthy _); [|auto].
  destruct (negb _); auto.
Qed.

Lemma check_tif_id o a : check_tif o a = a.
Proof. unfold check_tif. now destruct (tif o). Qed.

End IntentMore.

(** The rules of [validate_order_intent], split on the outcome of each
    test of the source. *)
Ltac validate_cases o pos :=
  unfold Intent.validate_order_intent;
  cbn [Intent.valid Intent.clipped_size Intent.risk_adjusted Intent.errors];
  rewrite !check_tif_id, ?check_limit_price_clip,
    ?(proj1 (check_limit_price_errors _ _)),
    ?(proj2 (check_limit_price_errors _ _));
  unfold Intent.check_position, Intent.check_notional, Intent.check_max_size,
    Intent.check_min_size;
  destruct (Qltb (Intent.size o) (Intent.min_size Intent.default_limits)) eqn:Emin;
  destruct (Qgtb (Intent.size o) (Intent.max_size Intent.default_limits)) eqn:Emax;
  destruct (Qgtb (Intent.size o * Intent.price_of (Intent.symbol o))
              (Intent.max_notional Intent.default_limits)) eqn:Enot;
  destruct (Intent.dict_truthy pos) eqn:Epos;
  try destruct (Qgtb (Qabs (Intent.current_pos pos (Intent.symbol o)
                            + Intent.signed_size o))
                  (Intent.max_position_size Intent.default_limits)) eqn:Enew;
  cbn [Intent.l_errors Intent.l_clipped_size Intent.l_risk_adjusted
       Intent.add_error Intent.set_clip app is_nil].

(** X5. [validate_order_intent] accepts an intent exactly when its size
    lies between [min_size] and [max_size], its notional does not exceed
    [max_notional], and, when a non-empty positions map is given, the
    resulting position stays within [max_position_size]; the limit price
    and the time in force never decide. *)
Theorem validate_accepts_iff
    (o : Intent.OrderIntent) (pos : option (gmap string Q)) :
  Intent.valid (Intent.validate_order_intent o pos) = true <->
  Intent.min_size Intent.default_limits <= Intent.size o
  /\ Intent.size o <= Intent.max_size Intent.default_limits
  /\ Intent.size o * Intent.price_of (Intent.symbol o)
     <= Intent.max_notional Intent.default_limits
  /\ (Intent.dict_truthy pos = true ->
      Qabs (Intent.current_pos pos (Intent.symbol o) + Intent.signed_size o)
      <= Intent.max_position_size Intent.default_limits).
Proof.
  validate_cases o pos;
    rewrite ?Qltb_true, ?Qltb_false in Emin;
    rewrite ?Qgtb_true, ?Qgtb_false in Emax;
    rewrite ?Qgtb_true, ?Qgtb_false in Enot;
    try (rewrite ?Qgtb_true, ?Qgtb_false in Enew);
    (split;
     [ intros H; try discriminate H;
       repeat split; try assumption; intros; try assumption; discriminate
     | intros (H1 & H2 & H3 & H4); try reflexivity; exfalso;
       first [ exact (Qlt_not_le _ _ Emin H1)
             | exact (Qlt_not_le _ _ Emax H2)
             | exact (Qlt_not_le _ _ Enot H3)
             | exact (Qlt_not_le _ _ Enew (H4 eq_refl)) ] ]).
Qed.

(** X6. An intent that validates carries no clip candidate and no
    risk-adjustment flag: every rule that proposes a clip also records an
    error. *)
Theorem valid_means_unclipped
    (o : Intent.OrderIntent) (pos : option (gmap string Q)) :
  Intent.valid (Intent.validate_order_intent o pos) = true ->
  Intent.clipped_size (Intent.validate_order_intent o pos) = None
  /\ Intent.risk_adjusted (Intent.validate_order_intent o pos) = false.
Proof.
  validate_cases o pos; intros H; try discriminate H; auto.
Qed.

Lemma valid_means_unclipped_witness :
  Intent.clipped_size
    (Intent.validate_order_intent
       (Intent.mkIntent "ETH" Intent.SELL 2 Intent.MARKET "i" None Intent.IOC
          None 0) None) = None
  /\ Intent.risk_adjusted
       (Intent.validate_order_intent
          (Intent.mkIntent "ETH" Intent.SELL 2 Intent.MARKET "i" None Intent.IOC
             None 0) None) = false.
Proof.
  apply valid_means_unclipped. vm_compute. reflexivity.
Defined.

(** X7. Assigning to [size] under [validate_assignment] succeeds exactly
    for values in (0, 1000], and then changes nothing but the size. *)
Theorem assign_size_accepts_iff (o : Intent.OrderIntent) (v : Q) :
  (exists o', Intent.assign_size o v = Ok o') <-> 0 < v /\ v <= 1000.
Proof.
  unfold Intent.assign_size, Intent.field_gt0, Intent.validate_size.
  destruct (Qgtb v 0) eqn:E0.
  - apply Qgtb_true in E0.
    assert (Hle : Qle_bool v 0 = false).
    { apply not_true_iff_false. intros H. apply Qle_bool_iff in H.
      exact (Qlt_not_le _ _ E0 H). }
    rewrite Hle. destruct (Qgtb v 1000) eqn:E1.
    + apply Qgtb_true in E1. split; [intros [o' H]; discriminate|].
      intros [_ H]. exfalso. exact (Qlt_not_le _ _ E1 H).
    + apply Qgtb_false in E1. split; [auto | eauto].
  - apply Qgtb_false in E0. split; [intros [o' H]; discriminate|].
    intros [H _]. exfalso. exact (Qlt_not_le _ _ H E0).
Qed.

(** X8. Whenever [clip_to_risk] returns, the result is the original
    intent with a size that is not larger: no other field changes. *)
Theorem clip_to_risk_only_shrinks
    (o o' : Intent.OrderIntent) (pos : option (gmap string Q)) :
  Intent.clip_to_risk o pos = Ok o' ->
  Intent.size o' <= Intent.size o
  /\ o' = Intent.with_size o (Intent.size o').
Proof.
  intros H. split; [eapply clip_to_risk_never_increases; exact H|].
  unfold Intent.clip_to_risk in H.
  destruct (Intent.clipped_size _) as [c|].
  - apply assign_size_ok in H. now subst.
  - injection H as <-. now destruct o.
Qed.

Lemma clip_to_risk_only_shrinks_witness :
  let o := Intent.mkIntent "SOL" Intent.BUY 150 Intent.MARKET "i" None
             Intent.GTC None 0 in
  let o' := Intent.with_size o (10000 # 100) in
  Intent.size o' <= Intent.size o
  /\ o' = Intent.with_size o (Intent.size o').
Proof.
  intros o o'. apply (clip_to_risk_only_shrinks o o' None).
  vm_compute. reflexivity.
Defined.

(** ** TokenBucket: accounting, refusal and fault conditions *)

(** X9. [tokens_consumed] counts exactly the granted tokens: a call that
    returns [True] adds the requested amount, any other outcome leaves the
    counter as it was. *)
Theorem acquire_counts_granted_tokens
    (b : Bucket.TokenBucket) (requested timeout_ms : Z) (r : Bucket.Reading) :
  Bucket.tokens_consumed (snd (Bucket.acquire b requested timeout_ms r))
  = (Bucket.tokens_consumed b
     + match fst (Bucket.acquire b requested timeout_ms r) with
       | Ok true => requested
       | _ => 0
       end)%Z.
Proof.
  assert (Hr : Bucket.tokens_consumed (Bucket.refill b (Bucket.at_lock r))
               = Bucket.tokens_consumed b).
  { unfold Bucket.refill. now destruct (Qgtb _ 0). }
  unfold Bucket.acquire. revert Hr.
  generalize (Bucket.refill b (Bucket.at_lock r)). intros b1 Hr.
  destruct (Qgeb _ _); [simpl; now rewrite Hr|].
  destruct (Qeq_bool _ 0); [simpl; lia|].
  destruct (Qle_bool _ _); simpl; rewrite Hr; lia.
Qed.

(** X10. [acquire] returns [False] exactly when, after the lazy refill,
    the tokens do not cover the request, the rate is not zero, and the wait
    for the shortfall exceeds the timeout; the bucket is then left as the
    refill made it, with nothing consumed. *)
Theorem acquire_refuses_iff
    (b : Bucket.TokenBucket) (requested timeout_ms : Z) (r : Bucket.Reading) :
  let b1 := Bucket.refill b (Bucket.at_lock r) in
  (fst (Bucket.acquire b requested timeout_ms r) = Ok false <->
   Bucket.tokens b1 < inject_Z requested
   /\ ~ Bucket.rps b1 == 0
   /\ inject_Z timeout_ms / 1000
      < (inject_Z requested - Bucket.tokens b1) / Bucket.rps b1)
  /\ (fst (Bucket.acquire b requested timeout_ms r) = Ok false ->
      snd (Bucket.acquire b requested timeout_ms r) = b1).
Proof.
  intros b1. unfold Bucket.acquire. fold b1. clearbody b1.
  destruct (Qgeb (Bucket.tokens b1) (inject_Z requested)) eqn:Eg.
  - apply Qgeb_true in Eg. split; [|discriminate]. split; [discriminate|].
    intros (H & _). exfalso. exact (Qlt_not_le _ _ H Eg).
  - apply Qgeb_false in Eg.
    destruct (Qeq_bool (Bucket.rps b1) 0) eqn:Ez.
    + apply Qeq_bool_iff in Ez. split; [|discriminate].
      split; [discriminate | intros (_ & H & _); contradiction].
    + apply Qeq_bool_neq in Ez.
      destruct (Qle_bool _ _) eqn:El.
      * apply Qle_bool_iff in El. split; [|discriminate].
        split; [discriminate|]. intros (_ & _ & H). exfalso.
        exact (Qlt_not_le _ _ H El).
      * split; [|reflexivity]. split; [|reflexivity]. intros _.
        split; [exact Eg|]. split; [exact Ez|].
        apply Qnot_le_lt. intros H. apply Qle_bool_iff in H. congruence.
Qed.

(** X11. [acquire] raises exactly when the rate is zero and the bucket
    does not hold the requested tokens; the bucket is then unchanged. *)
Theorem acquire_raises_iff
    (b : Bucket.TokenBucket) (requested timeout_ms : Z) (r : Bucket.Reading) :
  ((exists msg, fst (Bucket.acquire b requested timeout_ms r) = Raise msg) <->
   Bucket.rps b == 0 /\ Bucket.tokens b < inject_Z requested)
  /\ (forall msg, fst (Bucket.acquire b requested timeout_ms r) = Raise msg ->
      snd (Bucket.acquire b requested timeout_ms r) = b).
Proof.
  destruct (Qeq_bool (Bucket.rps b) 0) eqn:Ez.
  - apply Qeq_bool_iff in Ez.
    destruct (Qlt_le_dec (Bucket.tokens b) (inject_Z requested)) as [Hlt|Hge].
    + rewrite acquire_zero_rate_empty by assumption. cbn [fst snd].
      split; [|reflexivity]. split; [auto | eauto].
    + unfold Bucket.acquire. rewrite refill_zero_rate by exact Ez.
      apply Qgeb_true in Hge. rewrite Hge. cbn [fst]. apply Qgeb_true in Hge.
      split; [|discriminate]. split; [intros [msg H]; discriminate|].
      intros [_ H]. exfalso. exact (Qlt_not_le _ _ H Hge).
  - apply Qeq_bool_neq in Ez.
    assert (Hr : Qeq_bool (Bucket.rps (Bucket.refill b (Bucket.at_lock r))) 0
                 = false).
    { unfold Bucket.refill. destruct (Qgtb _ 0); simpl;
        (destruct (Qeq_bool (Bucket.rps b) 0) eqn:E; [|reflexivity]);
        apply Qeq_bool_iff in E; contradiction. }
    unfold Bucket.acquire. rewrite Hr.
    destruct (Qgeb _ _); [|destruct (Qle_bool _ _)]; cbn [fst];
      (split; [|discriminate]);
      (split; [intros [msg H]; discriminate | intros [H _]; contradiction]).
Qed.

(** X12. The token count of a bucket never exceeds [burst]: after every
    sequence of [acquire] calls that each request a non-negative number of
    tokens, whatever the timeouts, the rate and the clock, [tokens <= burst]
    ([burst] being an integer that [float(burst)] represents exactly). The
    refills are capped with [min] and a request is only subtracted, so the
    bound does not depend on how the float operations round. *)
Theorem bucket_never_exceeds_burst
    (rps : Q) (burst : Z) (name : string) (t0 : Q)
    (calls : list (Z * Z * Bucket.Reading)) :
  (Z.abs burst <= 2 ^ 53)%Z ->
  Forall (fun c => (0 <= fst (fst c))%Z) calls ->
  let b := snd (Bucket.acquire_all (Bucket.init rps burst name t0) calls) in
  Bucket.tokens b <= inject_Z burst /\ Bucket.burst b = burst.
Proof.
  intros _ Hall.
  assert (H : forall b, Bucket.burst b = burst ->
              Bucket.tokens b <= inject_Z burst ->
              Bucket.tokens (snd (Bucket.acquire_all b calls)) <= inject_Z burst
              /\ Bucket.burst (snd (Bucket.acquire_all b calls)) = burst).
  { induction Hall as [|[[n t] r] calls Hn Hall IH]; intros b Hbb Hw;
      [split; [exact Hw | exact Hbb]|].
    rewrite acquire_all_cons. cbn [snd fst] in *.
    destruct (acquire_keeps_upper_bound b n t r) as [H1 H2];
      [now rewrite Hbb | exact Hn |].
    apply IH; [congruence | now rewrite <- Hbb]. }
  apply H; [reflexivity|]. cbn [Bucket.init Bucket.tokens]. apply Qle_refl.
Qed.

Lemma bucket_never_exceeds_burst_witness :
  let b := snd (Bucket.acquire_all (Bucket.init 10 5 "info_limiter" 0)
                  [(2%Z, 200%Z, Bucket.mkReading 1 1 1);
                   (7%Z, 1000%Z, Bucket.mkReading 1 1 1);
                   (5%Z, 0%Z, Bucket.mkReading 3 3 3)]) in
  Bucket.tokens b <= 5 /\ Bucket.burst b = 5%Z.
Proof.
  apply (bucket_never_exceeds_burst 10 5 "info_limiter" 0).
  - vm_compute. discriminate.
  - repeat constructor; simpl; lia.
Defined.

(** ** BudgetGuard: fault on a zero balance, status report, rolling window *)

Section BudgetMore.
Import Budget.

Lemma prune_suffix cutoff rs : exists dropped, rs = dropped ++ prune cutoff rs.
Proof.
  induction rs as [|r rs [dropped IH]]; simpl; [now exists []|].
  destruct (Qltb (timestamp r) cutoff).
  - exists (r :: dropped). simpl. now f_equal.
  - now exists [].
Qed.

Lemma prune_sorted_fresh cutoff rs r :
  StronglySorted (fun a b => timestamp a <= timestamp b) rs ->
  In r (prune cutoff rs) -> cutoff <= timestamp r.
Proof.
  induction rs as [|r0 rs IH]; simpl; intros Hs Hin; [destruct Hin|].
  apply StronglySorted_inv in Hs as [Hs Hall].
  destruct (Qltb (timestamp r0) cutoff) eqn:E; [auto|].
  apply Qltb_false in E. destruct Hin as [<-|Hin]; [exact E|].
  rewrite List.Forall_forall in Hall. specialize (Hall r Hin).
  eapply Qle_trans; eassumption.
Qed.

Lemma sorted_snoc rs r :
  StronglySorted (fun a b => timestamp a <= timestamp b) rs ->
  Forall (fun a => timestamp a <= timestamp r) rs ->
  StronglySorted (fun a b => timestamp a <= timestamp b) (rs ++ [r]).
Proof.
  induction rs as [|r0 rs IH]; simpl; intros Hs Hall.
  - constructor; constructor.
  - apply StronglySorted_inv in Hs as [Hs H0].
    apply List.Forall_cons_iff in Hall as [Hr0 Hall].
    constructor; [auto|].
    apply List.Forall_app. split; [exact H0 | constructor; [exact Hr0 | constructor]].
Qed.

Lemma sorted_app_r (rs1 rs2 : list PnLRecord) :
  StronglySorted (fun a b => timestamp a <= timestamp b) (rs1 ++ rs2) ->
  StronglySorted (fun a b => timestamp a <= timestamp b) rs2.
Proof.
  induction rs1 as [|r rs1 IH]; simpl; [auto|].
  intros H. apply StronglySorted_inv in H as [H _]. auto.
Qed.

End BudgetMore.

(** X13. With a zero initial balance and a non-negative window,
    [record_pnl] raises (division by zero in [_check_budget_limit]) after it
    has already stored the record. *)
Theorem record_pnl_raises_on_zero_balance
    (g : Budget.BudgetGuard) (realized simulated now now_trip : Q) :
  Budget.initial_balance g == 0 ->
  0 <= Budget.window_seconds g ->
  let res := Budget.record_pnl g realized simulated now now_trip in
  fst res = Raise "float division by zero"
  /\ In (Budget.mkRecord now realized simulated (realized + simulated))
        (Budget.records (snd res)).
Proof.
  intros Hb Hw. unfold Budget.record_pnl. cbn zeta.
  set (new := Budget.mkRecord now realized simulated (realized + simulated)).
  unfold Budget.check_budget_limit. cbn [Budget.records Budget.initial_balance].
  assert (Hne : Budget.prune (now - Budget.window_seconds g)
                  (Budget.records g ++ [new]) <> []).
  { apply prune_keeps_fresh. simpl. lra. }
  assert (Hin : In new (Budget.prune (now - Budget.window_seconds g)
                          (Budget.records g ++ [new]))).
  { destruct (prune_suffix (now - Budget.window_seconds g)
                (Budget.records g ++ [new])) as [dropped Heq].
    destruct (Budget.prune _ _) as [|p ps] eqn:Ep; [contradiction|].
    destruct (List.exists_last (l := p :: ps)) as (l' & a & Hl); [discriminate|].
    rewrite Hl, List.app_assoc in Heq.
    apply List.app_inj_tail in Heq as [_ Ha]. rewrite Hl, Ha.
    apply List.in_app_iff. right. now left. }
  destruct (Budget.prune _ _) as [|p ps] eqn:Ep; [contradiction|].
  apply Qeq_bool_iff in Hb. rewrite Hb. cbn [fst snd Budget.records].
  split; [reflexivity | exact Hin].
Qed.

Lemma record_pnl_raises_on_zero_balance_witness :
  let res := Budget.record_pnl
               (Budget.set_initial_balance (Budget.init 10 24) 0) (-5) 0 1 1 in
  fst res = Raise "float division by zero"
  /\ In (Budget.mkRecord 1 (-5) 0 (-5 + 0)) (Budget.records (snd res)).
Proof.
  apply (record_pnl_raises_on_zero_balance
           (Budget.set_initial_balance (Budget.init 10 24) 0) (-5) 0 1 1).
  - reflexivity.
  - vm_compute. discriminate.
Defined.

(** X14. With a positive balance and a non-negative window, the status
    read right after a [record_pnl] is consistent: it reports the flag of
    the guard, and that flag is set exactly when the reported drawdown
    percentage is at or above [max_drawdown_pct]. *)
Theorem get_status_after_record
    (g : Budget.BudgetGuard) (realized simulated now now_trip : Q) :
  0 < Budget.initial_balance g ->
  0 <= Budget.window_seconds g ->
  let g' := snd (Budget.record_pnl g realized simulated now now_trip) in
  exists st,
    Budget.get_status g' = Ok st
    /\ Budget.st_triggered st = Budget.is_triggered g'
    /\ Budget.st_triggered st
       = Qgeb (Budget.st_drawdown_pct st) (Budget.max_drawdown_pct g)
    /\ Budget.st_total_pnl st = Budget.window_sum (Budget.records g').
Proof.
  intros Hb Hw g'. unfold g', Budget.record_pnl. cbn zeta.
  set (g1 := Budget.mkGuard _ _ _ _ _ _).
  assert (Hne : Budget.records g1 <> []).
  { unfold g1. simpl. apply prune_keeps_fresh. simpl. lra. }
  assert (Hb1 : 0 < Budget.initial_balance g1) by exact Hb.
  pose proof (check_budget_limit_flag g1 now_trip Hne Hb1) as Hflag.
  destruct (check_budget_limit_params g1 now_trip) as (Hr & Hi & Hm & _).
  cbn zeta in Hflag, Hr, Hi, Hm.
  set (g2 := snd (Budget.check_budget_limit g1 now_trip)) in *.
  unfold Budget.get_status. rewrite Hr, Hi.
  destruct (Budget.records g1) as [|p ps] eqn:Ep; [contradiction|].
  rewrite (Qeq_bool_pos _ Hb1).
  eexists. split; [reflexivity|]. cbn [Budget.st_triggered Budget.st_drawdown_pct
                                       Budget.st_total_pnl].
  split; [reflexivity|]. split; [|reflexivity].
  rewrite Hflag. reflexivity.
Qed.

Lemma get_status_after_record_witness :
  let g' := snd (Budget.record_pnl (Budget.init 10 24) (-1500) 0 1 1) in
  exists st,
    Budget.get_status g' = Ok st
    /\ Budget.st_triggered st = Budget.is_triggered g'
    /\ Budget.st_triggered st
       = Qgeb (Budget.st_drawdown_pct st)
              (Budget.max_drawdown_pct (Budget.init 10 24))
    /\ Budget.st_total_pnl st = Budget.window_sum (Budget.records g').
Proof.
  apply (get_status_after_record (Budget.init 10 24) (-1500) 0 1 1).
  - reflexivity.
  - vm_compute. discriminate.
Defined.

(** X15. When the clock does not step back (the stored records are in
    time order and none is later than [now]) and the window is
    non-negative, the records kept by [record_pnl] are again in time order
    and all lie inside the rolling window [now - window_seconds, now]. *)
Theorem record_pnl_keeps_window
    (g : Budget.BudgetGuard) (realized simulated now now_trip : Q) :
  Budget.chronological (Budget.records g) now ->
  0 <= Budget.window_seconds g ->
  let g' := snd (Budget.record_pnl g realized simulated now now_trip) in
  Budget.chronological (Budget.records g') now
  /\ Forall (fun r => now - Budget.window_seconds g <= Budget.timestamp r)
            (Budget.records g').
Proof.
  intros [Hs Hall] Hw g'.
  set (new := Budget.mkRecord now realized simulated (realized + simulated)).
  assert (Hrec : Budget.records g'
                 = Budget.prune (now - Budget.window_seconds g)
                     (Budget.records g ++ [new])).
  { unfold g', Budget.record_pnl. cbn zeta.
    match goal with
    | |- context [Budget.check_budget_limit ?g1 _] =>
        destruct (check_budget_limit_params g1 now_trip) as (Hr & _)
    end.
    cbn zeta in Hr. rewrite Hr. reflexivity. }
  rewrite Hrec.
  assert (Hs' : StronglySorted
                  (fun a b => Budget.timestamp a <= Budget.timestamp b)
                  (Budget.records g ++ [new])) by (apply sorted_snoc; assumption).
  assert (Hall' : Forall (fun a => Budget.timestamp a <= now)
                    (Budget.records g ++ [new])).
  { apply List.Forall_app. split; [exact Hall|].
    constructor; [apply Qle_refl | constructor]. }
  destruct (prune_suffix (now - Budget.window_seconds g)
              (Budget.records g ++ [new])) as [dropped Heq].
  split; [split|].
  - rewrite Heq in Hs'. eapply sorted_app_r. exact Hs'.
  - rewrite Heq in Hall'. apply List.Forall_app in Hall'. tauto.
  - apply List.Forall_forall. intros r Hr.
    eapply prune_sorted_fresh; eassumption.
Qed.

Lemma record_pnl_keeps_window_witness :
  let g := Budget.record_all (Budget.init 10 1) [(1, 0, 0, 0); (2, 0, 10, 10)] in
  let g' := snd (Budget.record_pnl g 3 0 3605 3605) in
  Budget.chronological (Budget.records g') 3605
  /\ Forall (fun r => 3605 - Budget.window_seconds g <= Budget.timestamp r)
            (Budget.records g').
Proof.
  apply (record_pnl_keeps_window
           (Budget.record_all (Budget.init 10 1) [(1, 0, 0, 0); (2, 0, 10, 10)])
           3 0 3605 3605).
  - split.
    + vm_compute. repeat constructor; discriminate.
    + vm_compute. repeat constructor; discriminate.
  - vm_compute. discriminate.
Defined.

(** ** CircuitBreaker: tripping, closing, and the registry *)

Section BreakerMore.
Import Breaker.

Lemma drop_old_keeps cutoff f fs :
  cutoff <= f -> drop_old cutoff (f :: fs) = f :: fs.
Proof. intros H. simpl. apply Qltb_false in H. now rewrite H. Qed.

Lemma record_failure_config b now : config (record_failure b now) = config b.
Proof.
  unfold record_failure. destruct (_ <=? _)%Z; [|reflexivity].
  destruct (negb _); reflexivity.
Qed.

(** Failures that all lie in an interval no longer than the failure
    window are all retained. *)
Lemma record_failure_keeps b now lo hi :
  Forall (fun t => lo <= t /\ t <= hi) (failures b ++ [now]) ->
  hi - lo <= inject_Z (failure_window_sec (config b)) ->
  failures (record_failure b now) = failures b ++ [now].
Proof.
  intros Hall Hw.
  assert (Hkeep : drop_old (now - inject_Z (failure_window_sec (config b)))
                    (failures b ++ [now]) = failures b ++ [now]).
  { assert (Hnow : now <= hi).
    { rewrite List.Forall_forall in Hall.
      apply (Hall now). apply List.in_app_iff. right. now left. }
    destruct (failures b ++ [now]) as [|f fs] eqn:E; [reflexivity|].
    apply drop_old_keeps. apply List.Forall_cons_iff in Hall as [[Hf _] _]. lra. }
  unfold record_failure. rewrite Hkeep.
  destruct (_ <=? _)%Z; [|reflexivity]. destruct (negb _); reflexivity.
Qed.

Lemma record_failure_below b now lo hi :
  Forall (fun t => lo <= t /\ t <= hi) (failures b ++ [now]) ->
  hi - lo <= inject_Z (failure_window_sec (config b)) ->
  (Z.of_nat (length (failures b ++ [now])) < failure_threshold (config b))%Z ->
  tripped_at (record_failure b now) = tripped_at b.
Proof.
  intros Hall Hw Hlt.
  pose proof (record_failure_keeps b now lo hi Hall Hw) as Hk.
  unfold record_failure in *.
  destruct (_ <=? _)%Z eqn:E; [|reflexivity].
  apply Z.leb_le in E.
  destruct (negb _); simpl in Hk; rewrite Hk in E; lia.
Qed.

Lemma record_failure_trips b now lo hi :
  Forall (fun t => lo <= t /\ t <= hi) (failures b ++ [now]) ->
  hi - lo <= inject_Z (failure_window_sec (config b)) ->
  (failure_threshold (config b) <= Z.of_nat (length (failures b ++ [now])))%Z ->
  truthy (tripped_at b) = false ->
  tripped_at (record_failure b now) = Some now.
Proof.
  intros Hall Hw Hge Ht.
  pose proof (record_failure_keeps b now lo hi Hall Hw) as Hk.
  unfold record_failure in *.
  destruct (_ <=? _)%Z eqn:E.
  - cbn [tripped_at]. now rewrite Ht.
  - apply Z.leb_gt in E. simpl in Hk. rewrite Hk in E. lia.
Qed.

Lemma failures_below_threshold ts : forall b lo hi,
  Forall (fun t => lo <= t /\ t <= hi) (failures b ++ ts) ->
  hi - lo <= inject_Z (failure_window_sec (config b)) ->
  (Z.of_nat (length (failures b ++ ts)) < failure_threshold (config b))%Z ->
  let b' := List.fold_left record_failure ts b in
  failures b' = failures b ++ ts /\ tripped_at b' = tripped_at b
  /\ config b' = config b.
Proof.
  induction ts as [|t ts IH]; intros b lo hi Hall Hw Hlt; simpl.
  - rewrite List.app_nil_r. auto.
  - assert (Hall1 : Forall (fun t => lo <= t /\ t <= hi) (failures b ++ [t])).
    { rewrite List.Forall_forall in *. intros x Hx. apply Hall.
      apply List.in_app_iff in Hx as [Hx|[<-|[]]]; apply List.in_app_iff;
        [now left | right; now left]. }
    pose proof (record_failure_keeps b t lo hi Hall1 Hw) as Hk.
    assert (Hlt1 : (Z.of_nat (length (failures b ++ [t]))
                    < failure_threshold (config b))%Z).
    { rewrite !List.length_app in *. simpl in *. lia. }
    pose proof (record_failure_below b t lo hi Hall1 Hw Hlt1) as Ht.
    destruct (IH (record_failure b t) lo hi) as (H1 & H2 & H3).
    + rewrite Hk, <- List.app_assoc. exact Hall.
    + now rewrite record_failure_config.
    + rewrite Hk, record_failure_config, <- List.app_assoc. exact Hlt.
    + cbn zeta in H1, H2, H3.
      rewrite H1, H2, H3, Hk, Ht, record_failure_config, <- List.app_assoc. auto.
Qed.

End BreakerMore.

(** X16. One [record_success] closes the breaker: the failure window is
    empty and [should_skip] answers [False], whatever the state before and
    whatever the time. *)
Theorem record_success_closes (b : Breaker.CircuitBreaker) (now : Q) :
  Breaker.failures (Breaker.record_success b) = []
  /\ fst (Breaker.should_skip (Breaker.record_success b) now) = false.
Proof.
  unfold Breaker.should_skip, Breaker.is_tripped, Breaker.record_success.
  cbn [Breaker.tripped_at].
  destruct (Breaker.tripped_at b) as [t|]; [|now split].
  destruct (Breaker.truthy (Some t)) eqn:E; cbn [Breaker.failures
    Breaker.tripped_at Breaker.with_tripped_at]; [now split|].
  rewrite E. now split.
Qed.

(** X17. While a breaker is tripped, further failures do not move its trip
    time. *)
Theorem record_failure_keeps_trip_time (b : Breaker.CircuitBreaker) (now : Q) :
  Breaker.truthy (Breaker.tripped_at b) = true ->
  Breaker.tripped_at (Breaker.record_failure b now) = Breaker.tripped_at b.
Proof.
  intros H. unfold Breaker.record_failure.
  destruct (_ <=? _)%Z; [|reflexivity].
  cbn [Breaker.tripped_at]. now rewrite H.
Qed.

Lemma record_failure_keeps_trip_time_witness :
  Breaker.tripped_at
    (Breaker.record_failure
       (Breaker.mkBreaker "info" Breaker.default_config [1; 2; 3; 4; 5] (Some 5) 0) 6)
  = Some 5.
Proof.
  apply (record_failure_keeps_trip_time
           (Breaker.mkBreaker "info" Breaker.default_config [1; 2; 3; 4; 5]
              (Some 5) 0) 6).
  reflexivity.
Defined.

(** X18. A new breaker that receives failures lying in an interval no
    longer than its failure window keeps them all; it is not tripped while
    they are fewer than [failure_threshold], and the failure that reaches
    the threshold trips it at its own time [t] (for [t] other than 0.0,
    which the code reads as "not tripped"): [should_skip] then answers
    [True] until [reset_after_sec] has elapsed. *)
Theorem failures_trip_at_threshold
    (path : string) (cfg : Breaker.BreakerConfig) (t0 lo hi t now : Q)
    (earlier : list Q) :
  Forall (fun x => lo <= x /\ x <= hi) (earlier ++ [t]) ->
  hi - lo <= inject_Z (Breaker.failure_window_sec cfg) ->
  Z.of_nat (length (earlier ++ [t])) = Breaker.failure_threshold cfg ->
  ~ t == 0 ->
  now - t <= inject_Z (Breaker.reset_after_sec cfg) ->
  let before := List.fold_left Breaker.record_failure earlier
                  (Breaker.init path cfg t0) in
  let after := Breaker.record_failure before t in
  Breaker.tripped_at before = None
  /\ fst (Breaker.should_skip before now) = false
  /\ Breaker.failures after = earlier ++ [t]
  /\ Breaker.tripped_at after = Some t
  /\ fst (Breaker.should_skip after now) = true.
Proof.
  intros Hall Hw Hlen Ht Hnow before after.
  destruct (failures_below_threshold earlier (Breaker.init path cfg t0) lo hi)
    as (Hf & Htr & Hc).
  - simpl. apply List.Forall_app in Hall. tauto.
  - exact Hw.
  - simpl. rewrite List.length_app in Hlen. simpl in Hlen. lia.
  - fold before in Hf, Htr, Hc. simpl in Hf, Htr, Hc.
    assert (Hk : Breaker.failures after = earlier ++ [t]).
    { unfold after. rewrite (record_failure_keeps before t lo hi);
        rewrite ?Hf, ?Hc; auto. }
    assert (Hta : Breaker.tripped_at after = Some t).
    { unfold after. apply (record_failure_trips before t lo hi);
        rewrite ?Hf, ?Hc, ?Htr; auto. lia. }
    split; [exact Htr|]. split.
    { unfold Breaker.should_skip, Breaker.is_tripped. now rewrite Htr. }
    split; [exact Hk|]. split; [exact Hta|].
    unfold Breaker.should_skip, Breaker.is_tripped. rewrite Hta.
    assert (Htruthy : Breaker.truthy (Some t) = true).
    { simpl. apply negb_true_iff, not_true_iff_false. intros H.
      apply Qeq_bool_iff in H. contradiction. }
    rewrite Htruthy. cbn [negb].
    assert (Hcfg : Breaker.config after = cfg).
    { unfold after. now rewrite record_failure_config. }
    rewrite Hcfg. apply Qgtb_false in Hnow. now rewrite Hnow.
Qed.

Lemma failures_trip_at_threshold_witness :
  let before := List.fold_left Breaker.record_failure [1; 2; 3; 4]
                  (Breaker.init "order" Breaker.default_config 0) in
  let after := Breaker.record_failure before 5 in
  Breaker.tripped_at before = None
  /\ fst (Breaker.should_skip before 20) = false
  /\ Breaker.failures after = [1; 2; 3; 4] ++ [5]
  /\ Breaker.tripped_at after = Some 5
  /\ fst (Breaker.should_skip after 20) = true.
Proof.
  apply (failures_trip_at_threshold "order" Breaker.default_config 0 1 5 5 20
           [1; 2; 3; 4]).
  - repeat constructor; vm_compute; discriminate.
  - vm_compute. discriminate.
  - reflexivity.
  - intros H. vm_compute in H. discriminate.
  - vm_compute. discriminate.
Defined.

(** X19. Once [is_tripped] has answered [False], it keeps answering
    [False] at any later read, until a failure is recorded: an elapsed
    cooldown is not re-armed by the clock. *)
Theorem is_tripped_stays_false (b : Breaker.CircuitBreaker) (now1 now2 : Q) :
  fst (Breaker.is_tripped b now1) = false ->
  fst (Breaker.is_tripped (snd (Breaker.is_tripped b now1)) now2) = false.
Proof.
  unfold Breaker.is_tripped.
  destruct (Breaker.tripped_at b) as [t|] eqn:Et.
  - destruct (negb (Breaker.truthy (Some t))) eqn:E1; cbn [fst snd].
    + intros _. now rewrite Et, E1.
    + destruct (Qgtb _ _); cbn [fst snd]; [reflexivity | discriminate].
  - cbn [fst snd]. now rewrite Et.
Qed.

Lemma is_tripped_stays_false_witness :
  fst (Breaker.is_tripped
         (snd (Breaker.is_tripped
                 (Breaker.mkBreaker "info" Breaker.default_config [] (Some 5) 0)
                 100)) 6) = false.
Proof.
  apply (is_tripped_stays_false
           (Breaker.mkBreaker "info" Breaker.default_config [] (Some 5) 0) 100 6).
  vm_compute. reflexivity.
Defined.

(** X20. [should_skip] on a path that the registry has never seen answers
    [False], registers a new breaker with the default configuration under
    that path, and leaves every other path as it was. *)
Theorem should_skip_unknown_path
    (breakers : gmap string Breaker.CircuitBreaker) (path : string)
    (now_new now : Q) :
  breakers !! path = None ->
  let res := Breaker.Registry.should_skip breakers path now_new now in
  fst res = false
  /\ snd res !! path = Some (Breaker.init path Breaker.default_config now_new)
  /\ (forall p, p <> path -> snd res !! p = breakers !! p).
Proof.
  intros Hp. unfold Breaker.Registry.should_skip, Breaker.Registry.get_breaker.
  rewrite Hp. cbn [Breaker.should_skip Breaker.is_tripped Breaker.init
                   Breaker.tripped_at fst snd].
  split; [reflexivity|]. split.
  - now rewrite lookup_insert_eq.
  - intros p Hne. now rewrite !lookup_insert_ne by congruence.
Qed.

Lemma should_skip_unknown_path_witness :
  let res := Breaker.Registry.should_skip
               (∅ : gmap string Breaker.CircuitBreaker) "info" 1 2 in
  fst res = false
  /\ snd res !! "info"%string
     = Some (Breaker.init "info" Breaker.default_config 1)
  /\ (forall p, p <> "info"%string ->
      snd res !! p = (∅ : gmap string Breaker.CircuitBreaker) !! p).
Proof.
  apply (should_skip_unknown_path ∅ "info"%string 1 2).
  apply lookup_empty.
Defined.

(** ** Live guard: the verdict *)

Section GuardMore.

Lemma is_nil_filter {A : Type} (f : A -> bool) (l : list A) :
  is_nil (List.filter f l) = true <-> forall x, In x l -> f x = false.
Proof.
  induction l as [|a l IH]; simpl; [tauto|].
  destruct (f a) eqn:E; simpl.
  - split; [discriminate|]. intros H.
    specialize (H a (or_introl eq_refl)). congruence.
  - rewrite IH. split.
    + intros H x [<-|Hx]; auto.
    + intros H x Hx. apply H. now right.
Qed.

Lemma get_status_tripped b now :
  Breaker.s_tripped (fst (Breaker.get_status b now))
  = fst (Breaker.is_tripped b now).
Proof. unfold Breaker.get_status. now destruct (Breaker.is_tripped b now). Qed.

(** No status of [get_all_status] reports "tripped" exactly when no breaker
    of the registry answers [True] to [is_tripped]. *)
Lemma no_tripped_status m clock :
  is_nil (List.filter (fun kv => Breaker.s_tripped (snd kv))
            (map_to_list (fst (Breaker.get_all_status m clock)))) = true
  <-> forall p b, m !! p = Some b -> fst (Breaker.is_tripped b (clock p)) = false.
Proof.
  rewrite is_nil_filter. unfold Breaker.get_all_status. cbn [fst]. split.
  - intros H p b Hp. rewrite <- get_status_tripped.
    apply (H (p, fst (Breaker.get_status b (clock p)))).
    apply list_elem_of_In, elem_of_map_to_list.
    rewrite map_lookup_imap, Hp. reflexivity.
  - intros H [p st] Hin. apply list_elem_of_In, elem_of_map_to_list in Hin.
    rewrite map_lookup_imap in Hin.
    destruct (m !! p) as [b|] eqn:Hp; simpl in Hin; [|discriminate].
    injection Hin as <-. cbn [snd]. rewrite get_status_tripped. eauto.
Qed.

End GuardMore.

(** X21. [check_live_guard] answers "safe" exactly when a sampler exists
    and reports "healthy", no breaker of the registry is tripped at the time
    it is examined, and the budget status can be computed and is not
    triggered. *)
Theorem check_live_guard_safe_iff (w : LiveGuard.World) (clock : string -> Q) :
  fst (fst (fst (LiveGuard.check_live_guard w clock))) = true <->
  (exists s, LiveGuard.sampler w = Some s
             /\ LiveGuard.health_status s = "healthy"%string)
  /\ (forall p b, LiveGuard.breakers w !! p = Some b ->
                  fst (Breaker.is_tripped b (clock p)) = false)
  /\ (exists st, Budget.get_status (LiveGuard.budget w) = Ok st
                 /\ Budget.st_triggered st = false).
Proof.
  pose proof (no_tripped_status (LiveGuard.breakers w) clock) as Hb.
  unfold LiveGuard.check_live_guard.
  destruct (LiveGuard.sampler w) as [s|].
  2: { cbn [fst]. split; [discriminate | intros ([s [H _]] & _); discriminate]. }
  destruct (String.eqb_spec (LiveGuard.health_status s) "healthy") as [Hh|Hh];
    cbn [negb].
  2: { cbn [fst]. split; [discriminate|].
       intros ([s' [[= <-] H]] & _). contradiction. }
  unfold Breaker.get_all_status in *. cbn [fst snd] in *.
  destruct (is_nil _) eqn:En; cbn [negb].
  - destruct (Budget.get_status (LiveGuard.budget w)) as [st|msg].
    + destruct (Budget.st_triggered st) eqn:Et; cbn [fst].
      * split; [discriminate|]. intros (_ & _ & [st' [[= <-] H]]). congruence.
      * split; [intros _ | reflexivity].
        split; [eauto|]. split; [now apply Hb | eauto].
    + cbn [fst]. split; [discriminate|]. intros (_ & _ & [st' [H _]]).
      discriminate.
  - cbn [fst]. split; [discriminate|]. intros (_ & H & _).
    apply Hb in H. congruence.
Qed.

(** X22. Without a sampler, or with a sampler that does not report
    "healthy", [check_live_guard] answers "unsafe" before it reads the
    breakers: the registry is left untouched, so no breaker is auto-reset
    by such a call. *)
Theorem check_live_guard_degraded (w : LiveGuard.World) (clock : string -> Q) :
  (forall s, LiveGuard.sampler w = Some s ->
             LiveGuard.health_status s <> "healthy"%string) ->
  let res := LiveGuard.check_live_guard w clock in
  fst (fst (fst res)) = false
  /\ (snd (fst (fst res)) = "no_sampler"%string
      \/ snd (fst (fst res)) = "data_degraded"%string)
  /\ snd res = w.
Proof.
  intros H. unfold LiveGuard.check_live_guard.
  destruct (LiveGuard.sampler w) as [s|]; [|cbn; auto].
  specialize (H s eq_refl). apply String.eqb_neq in H. rewrite H. cbn. auto.
Qed.

Lemma check_live_guard_degraded_witness :
  let w := LiveGuard.mkWorld (Some (LiveGuard.mkSampler "degraded" []))
             {[ "order"%string :=
                  Breaker.mkBreaker "order" Breaker.default_config [] (Some 5) 0 ]}
             (Budget.init 10 24) in
  let res := LiveGuard.check_live_guard w (fun _ => 100) in
  fst (fst (fst res)) = false
  /\ (snd (fst (fst res)) = "no_sampler"%string
      \/ snd (fst (fst res)) = "data_degraded"%string)
  /\ snd res = w.
Proof.
  intros w. apply (check_live_guard_degraded w (fun _ => 100)).
  intros s [= <-]. simpl. discriminate.
Defined.

(** ** Submission client: fatal errors, attempt bound, delays *)

Section PrivateMore.
Import Private.
Context {Payload : Type}.
Variable submit : Payload -> Z -> result SendResult.
Variable clock : Z -> Q.

Lemma retry_loop_bounded c payload attempts :
  (invocations (snd (retry_loop submit clock c payload attempts))
   <= length attempts)%nat.
Proof.
  induction attempts as [|a rest IH]; cbn [retry_loop];
    [unfold invocations; simpl; lia|].
  destruct (retry_loop submit clock c payload rest) as [r' trace] eqn:Er.
  cbn [snd] in IH.
  assert (Hcont : forall d : Q,
            (invocations (Submitted a :: Slept d :: trace) <= length (a :: rest))%nat).
  { intros d. unfold invocations in *. simpl. lia. }
  assert (Hone : forall r : SendResult,
            (invocations (snd (r, [Submitted a])) <= length (a :: rest))%nat).
  { intros r. unfold invocations. simpl. lia. }
  destruct (submit payload a) as [r|e].
  - destruct (success r); [apply Hone|].
    destruct (_ && _); [apply Hcont|].
    destruct (_ || _); [apply Hone|].
    destruct (_ <? _)%Z; [apply Hcont | apply Hone].
  - destruct (_ =? _)%Z; [apply Hone | apply Hcont].
Qed.

Lemma Qfrac_range x : 0 <= Qfrac x /\ Qfrac x < 1.
Proof.
  unfold Qfrac. pose proof (Qfloor_le x) as H1. pose proof (Qlt_floor x) as H2.
  rewrite inject_Z_plus in H2. change (inject_Z 1) with 1 in H2. lra.
Qed.

End PrivateMore.

(** X23. A first attempt that fails with an [AUTH] or [INVALID]
    classification is final: [send_order] submits once, does not sleep, and
    returns that failure. *)
Theorem send_order_fatal_error_once
    (Payload : Type) (submit : Payload -> Z -> result Private.SendResult)
    (clock : Z -> Q) (c : Private.HLPrivateClient) (payload : Payload)
    (uuid : string) (r : Private.SendResult) :
  (1 <= Private.max_retries c)%Z ->
  submit payload 0%Z = Ok r ->
  Private.success r = false ->
  Private.error_type r = Some Private.AUTH
  \/ Private.error_type r = Some Private.INVALID ->
  Private.send_order submit clock c payload false uuid
  = (r, [Private.Submitted 0]).
Proof.
  intros Hm Hs Hf He. unfold Private.send_order, Private.range.
  destruct (Z.to_nat (Private.max_retries c)) as [|n] eqn:En; [lia|].
  cbn [List.seq List.map Private.retry_loop]. change (Z.of_nat 0) with 0%Z.
  rewrite Hs, Hf. unfold Private.is_error.
  destruct He as [-> | ->]; reflexivity.
Qed.

Lemma send_order_fatal_error_once_witness :
  Private.send_order
    (fun (_ : unit) (_ : Z) => Ok (Private.handle_http_error 401 None))
    (fun _ => 0) Private.init tt false ""
  = (Private.handle_http_error 401 None, [Private.Submitted 0]).
Proof.
  apply (send_order_fatal_error_once unit
           (fun _ _ => Ok (Private.handle_http_error 401 None))
           (fun _ => 0) Private.init tt "").
  - simpl. lia.
  - reflexivity.
  - reflexivity.
  - left. reflexivity.
Defined.

(** X24. Whatever the submission does (succeed, fail with any
    classification, or raise), [send_order] never submits more than
    [max_retries] times. *)
Theorem send_order_attempts_bounded
    (Payload : Type) (submit : Payload -> Z -> result Private.SendResult)
    (clock : Z -> Q) (c : Private.HLPrivateClient) (payload : Payload)
    (dry_run : bool) (uuid : string) :
  (Private.invocations
     (snd (Private.send_order submit clock c payload dry_run uuid))
   <= Z.to_nat (Private.max_retries c))%nat.
Proof.
  unfold Private.send_order. destruct dry_run.
  - unfold Private.invocations. simpl. lia.
  - pose proof (retry_loop_bounded submit clock c payload
                  (Private.range (Private.max_retries c))) as H.
    unfold Private.range in *. now rewrite List.length_map, List.length_seq in H.
Qed.

(** The integer [2 ** attempt] is beyond the floats from [attempt = 1024]
    on. *)
Lemma pow2_overflows_float attempt :
  (0 <= attempt)%Z ->
  Private.int_overflows_float (2 ^ attempt) = (1024 <=? attempt)%Z.
Proof.
  intros H0. unfold Private.int_overflows_float.
  assert (Hp : (0 < 2 ^ attempt)%Z) by (apply Z.pow_pos_nonneg; lia).
  rewrite Z.abs_eq by lia.
  destruct (Z.leb_spec 1024 attempt) as [H|H].
  - apply Z.leb_le.
    assert ((2 ^ 1024 <= 2 ^ attempt)%Z) by (apply Z.pow_le_mono_r; lia).
    assert ((0 < 2 ^ 970)%Z) by (apply Z.pow_pos_nonneg; lia).
    lia.
  - apply Z.leb_gt.
    assert (H1 : (2 ^ attempt <= 2 ^ 1023)%Z) by (apply Z.pow_le_mono_r; lia).
    assert (H2 : (2 ^ 1023 < 2 ^ 1024 - 2 ^ 970)%Z) by (vm_compute; reflexivity).
    lia.
Qed.

(** X25. Without a server-given [retry_after], for an attempt number from
    0 on, [_calculate_retry_delay] returns exactly when [attempt < 1024],
    and raises [OverflowError] from [attempt = 1024] on. When it returns,
    the delay is the capped exponential backoff
    [min(base_delay * 2^attempt, max_delay)] lowered by the jitter: the
    jitter factor [(2*now) % 1 - 1] is never positive, so the delay lies
    between [backoff - backoff * jitter_range] and the backoff itself,
    which never exceeds [max_delay]. *)
Theorem retry_delay_bounds
    (c : Private.HLPrivateClient) (attempt : Z) (retry_after : option Z)
    (now : Q) :
  Private.int_truthy retry_after = false ->
  0 <= Private.base_delay c -> 0 <= Private.max_delay c ->
  0 <= Private.jitter_range c ->
  (0 <= attempt)%Z ->
  let backoff :=
    Qminimum (Private.base_delay c * Qpower 2 attempt) (Private.max_delay c) in
  match Private.calculate_retry_delay_checked c attempt retry_after now with
  | Ok d =>
      (attempt < 1024)%Z
      /\ backoff - backoff * Private.jitter_range c <= d
      /\ d <= backoff /\ backoff <= Private.max_delay c
  | Raise msg =>
      (1024 <= attempt)%Z /\ msg = "int too large to convert to float"%string
  end.
Proof.
  intros Ht Hb Hm Hj Ha backoff.
  unfold Private.calculate_retry_delay_checked. rewrite Ht.
  rewrite (pow2_overflows_float attempt Ha).
  assert (E0 : (0 <=? attempt)%Z = true) by (apply Z.leb_le; exact Ha).
  rewrite E0. cbn [andb].
  destruct (Z.leb_spec 1024 attempt) as [Hge|Hlt]; [split; [exact Hge | reflexivity]|].
  split; [exact Hlt|].
  unfold Private.calculate_retry_delay.
  rewrite Ht. cbn zeta. fold backoff.
  assert (Hp : 0 < Qpower 2 attempt) by (apply Qpower_0_lt; reflexivity).
  assert (Hk : 0 <= backoff /\ backoff <= Private.max_delay c).
  { unfold backoff.
    destruct (Qminimum_spec (Private.base_delay c * Qpower 2 attempt)
                (Private.max_delay c)) as [[H ->]|[H ->]].
    - split; [|exact H]. apply Qmult_le_0_compat; [exact Hb | now apply Qlt_le_weak].
    - split; [exact Hm | apply Qle_refl]. }
  destruct Hk as [Hk0 Hk1]. clearbody backoff.
  destruct (Qfrac_range (2 * now)) as [Hf0 Hf1].
  set (x := Private.Qfrac (2 * now)) in *. clearbody x.
  set (K := backoff * Private.jitter_range c).
  assert (HK : 0 <= K) by (apply Qmult_le_0_compat; assumption).
  assert (H1 : 0 <= K * x) by (apply Qmult_le_0_compat; assumption).
  assert (H2 : 0 <= K * (1 - x)) by (apply Qmult_le_0_compat; lra).
  unfold K in *. repeat split; lra.
Qed.

Lemma retry_delay_bounds_witness :
  let backoff :=
    Qminimum (Private.base_delay Private.init * Qpower 2 2)
             (Private.max_delay Private.init) in
  match Private.calculate_retry_delay_checked Private.init 2 None (13 # 10) with
  | Ok d =>
      (2 < 1024)%Z
      /\ backoff - backoff * Private.jitter_range Private.init <= d
      /\ d <= backoff /\ backoff <= Private.max_delay Private.init
  | Raise msg =>
      (1024 <= 2)%Z /\ msg = "int too large to convert to float"%string
  end.
Proof.
  apply (retry_delay_bounds Private.init 2 None (13 # 10)).
  - reflexivity.
  - vm_compute. discriminate.
  - vm_compute. discriminate.
  - vm_compute. discriminate.
  - lia.
Defined.

(** The same statement at [attempt = 1024]: the call raises. *)
Lemma retry_delay_overflow_run :
  Private.calculate_retry_delay_checked Private.init 1024 None (13 # 10)
  = Raise "int too large to convert to float".
Proof.
  vm_compute. reflexivity.
Qed.



(** ** OrderBus: duplicates, accepted and rejected intents, frame *)

Section BusMore.

Lemma valid_not_adjusted o pos :
  Intent.valid (Intent.validate_order_intent o pos) = true ->
  Intent.risk_adjusted (Intent.validate_order_intent o pos) = false.
Proof. validate_cases o pos; intros H; try discriminate H; reflexivity. Qed.

(** What [submit] does to the idempotency cache is one
    [check_and_store] with the intent id. *)
Lemma submit_cache bus env o pos :
  Bus.idempotency_cache (snd (Bus.submit bus env o pos))
  = snd (Idem.check_and_store (Bus.idempotency_cache bus) (Intent.intent_id o) o
           (Bus.cache_reading env))
  /\ Bus.idempotent (fst (Bus.submit bus env o pos))
     = fst (Idem.check_and_store (Bus.idempotency_cache bus) (Intent.intent_id o)
              o (Bus.cache_reading env)).
Proof. bus_unfold. repeat bus_branch; split; reflexivity. Qed.

Lemma submit_duplicate bus env o pos :
  fst (Idem.check_and_store (Bus.idempotency_cache bus) (Intent.intent_id o) o
         (Bus.cache_reading env)) = true ->
  Bus.success (fst (Bus.submit bus env o pos)) = false
  /\ Bus.order_id (fst (Bus.submit bus env o pos)) = None
  /\ Bus.audit_log (snd (Bus.submit bus env o pos)) = Bus.audit_log bus
  /\ Bus.pending_orders (snd (Bus.submit bus env o pos)) = Bus.pending_orders bus.
Proof.
  bus_unfold.
  destruct (Idem.check_and_store _ _ _ _) as [[|] c1]; cbn [fst];
    [intros _ | discriminate].
  cbn. auto.
Qed.

Lemma submit_all_cons bus env o pos rest :
  snd (Bus.submit_all bus ((env, o, pos) :: rest))
  = snd (Bus.submit_all (snd (Bus.submit bus env o pos)) rest).
Proof.
  simpl. destruct (Bus.submit bus env o pos) as [r b1]. simpl.
  now destruct (Bus.submit_all b1 rest).
Qed.

Lemma submit_all_cache calls : forall bus,
  List.NoDup (Idem.keys (Idem.cache (Bus.idempotency_cache bus))) ->
  let bus' := snd (Bus.submit_all bus calls) in
  List.NoDup (Idem.keys (Idem.cache (Bus.idempotency_cache bus')))
  /\ Idem.window_seconds (Bus.idempotency_cache bus')
     = Idem.window_seconds (Bus.idempotency_cache bus)
  /\ Idem.max_size (Bus.idempotency_cache bus')
     = Idem.max_size (Bus.idempotency_cache bus).
Proof.
  induction calls as [|[[env o] pos] calls IH]; intros bus Hnd; [now simpl|].
  cbn zeta. rewrite submit_all_cons.
  destruct (submit_cache bus env o pos) as [Hc _].
  destruct (check_and_store_params (Bus.idempotency_cache bus)
              (Intent.intent_id o) o (Bus.cache_reading env)) as [Hw Hm].
  destruct (IH (snd (Bus.submit bus env o pos))) as (H1 & H2 & H3).
  - rewrite Hc. now apply check_and_store_NoDup.
  - cbn zeta in H1, H2, H3. rewrite H2, H3, Hc, Hw, Hm. auto.
Qed.

End BusMore.

(** X27. Resubmitting an intent id is a silent no-op: on a bus reached
    from its constructor, when a [submit] was not a duplicate, a following
    [submit] with the same intent id whose purge falls within 60 s of the
    first one's storage returns [idempotent = True] with [success = False]
    and no order id, writes no audit event and leaves the pending orders
    untouched, whether or not the first intent passed validation. *)
Theorem submit_twice_is_idempotent
    (log : list Bus.AuditEvent)
    (calls : list (Bus.Env * Intent.OrderIntent * option (gmap string Q)))
    (env1 env2 : Bus.Env) (o1 o2 : Intent.OrderIntent)
    (pos1 pos2 : option (gmap string Q)) :
  let bus := snd (Bus.submit_all (Bus.init log) calls) in
  let r1 := Bus.submit bus env1 o1 pos1 in
  let r2 := Bus.submit (snd r1) env2 o2 pos2 in
  Bus.idempotent (fst r1) = false ->
  Intent.intent_id o2 = Intent.intent_id o1 ->
  Idem.at_clean (Bus.cache_reading env2) - Idem.at_store (Bus.cache_reading env1)
    <= 60 ->
  Bus.idempotent (fst r2) = true
  /\ Bus.success (fst r2) = false
  /\ Bus.order_id (fst r2) = None
  /\ Bus.audit_log (snd r2) = Bus.audit_log (snd r1)
  /\ Bus.pending_orders (snd r2) = Bus.pending_orders (snd r1).
Proof.
  intros bus r1 r2 Hnew Hid Hwin.
  destruct (submit_all_cache calls (Bus.init log)) as (Hnd & Hw & Hm);
    [constructor|]. fold bus in Hnd, Hw, Hm. simpl in Hw, Hm.
  destruct (submit_cache bus env1 o1 pos1) as [Hc1 Hi1].
  fold r1 in Hc1, Hi1. rewrite Hi1 in Hnew.
  destruct (check_and_store_params (Bus.idempotency_cache bus)
              (Intent.intent_id o1) o1 (Bus.cache_reading env1)) as [Hw1 Hm1].
  assert (Hdup : fst (Idem.check_and_store (Bus.idempotency_cache (snd r1))
                        (Intent.intent_id o2) o2 (Bus.cache_reading env2)) = true).
  { rewrite Hc1, Hid.
    apply (live_hit _ _ (Idem.at_store (Bus.cache_reading env1)) []).
    - now apply check_and_store_NoDup.
    - apply live_first; [rewrite Hm; lia | exact Hnew].
    - rewrite Hw1, Hw. exact Hwin. }
  destruct (submit_cache (snd r1) env2 o2 pos2) as [_ Hi2]. fold r2 in Hi2.
  destruct (submit_duplicate (snd r1) env2 o2 pos2 Hdup) as (H1 & H2 & H3 & H4).
  fold r2 in H1, H2, H3, H4. rewrite Hi2. auto.
Qed.

Lemma submit_twice_is_idempotent_witness :
  let env t := Bus.mkEnv (Idem.mkReading t t t) t t true Bus.no_fault in
  let o := Intent.mkIntent "BTC" Intent.BUY 500 Intent.MARKET "a" None
             Intent.GTC None 0 in
  let r1 := Bus.submit (snd (Bus.submit_all (Bus.init []) [])) (env 100) o None in
  let r2 := Bus.submit (snd r1) (env 130) o None in
  Bus.idempotent (fst r2) = true
  /\ Bus.success (fst r2) = false
  /\ Bus.order_id (fst r2) = None
  /\ Bus.audit_log (snd r2) = Bus.audit_log (snd r1)
  /\ Bus.pending_orders (snd r2) = Bus.pending_orders (snd r1).
Proof.
  intros env o.
  apply (submit_twice_is_idempotent [] [] (env 100) (env 130) o o None None).
  - reflexivity.
  - reflexivity.
  - unfold Qle. simpl. lia.
Defined.

(** X28. A [submit] that returns [success = True] has stored, under the
    order id it returns, a pending order that holds the intent exactly as
    submitted (a valid intent is never clipped) with status "pending", and
    has written one [order_submitted] event when the audit file accepts
    the write. *)
Theorem submit_success_records_order
    (bus : Bus.OrderBus) (env : Bus.Env) (o : Intent.OrderIntent)
    (pos : option (gmap string Q)) :
  let r := Bus.submit bus env o pos in
  Bus.success (fst r) = true ->
  let id := Bus.make_order_id (Intent.intent_id o) (Bus.order_time env) in
  Bus.order_id (fst r) = Some id
  /\ Bus.get_order_by_id (snd r) id
     = Some (Bus.mkPending (Intent.intent_id o) o "pending" (Bus.stamp env))
  /\ Intent.valid (Intent.validate_order_intent o pos) = true
  /\ Bus.audit_log (snd r)
     = Bus.audit_log bus
       ++ (if Bus.audit_ok env
           then [Bus.OrderSubmitted id (Intent.intent_id o) (Intent.symbol o)
                   (Intent.side o) (Intent.size o) (Intent.type o)
                   (Intent.warnings (Intent.validate_order_intent o pos))
                   (Bus.stamp env)]
           else []).
Proof.
  intros r. unfold r, Bus.get_order_by_id.
  destruct (Intent.valid (Intent.validate_order_intent o pos)) eqn:Hv.
  - pose proof (valid_not_adjusted o pos Hv) as Hra.
    bus_unfold. rewrite Hv, Hra. cbn [negb].
    repeat bus_branch; try discriminate; intros _; cbn;
      rewrite ?lookup_insert_eq, ?List.app_nil_r; auto.
  - bus_unfold. rewrite Hv. cbn [negb].
    repeat bus_branch; discriminate.
Qed.

Lemma submit_success_records_order_witness :
  let env := Bus.mkEnv (Idem.mkReading 100 100 100) 100 100 true Bus.no_fault in
  let o := Intent.mkIntent "ETH" Intent.SELL 2 Intent.MARKET "a" None
             Intent.GTC None 0 in
  let r := Bus.submit (Bus.init []) env o None in
  let id := Bus.make_order_id (Intent.intent_id o) (Bus.order_time env) in
  Bus.order_id (fst r) = Some id
  /\ Bus.get_order_by_id (snd r) id
     = Some (Bus.mkPending (Intent.intent_id o) o "pending" (Bus.stamp env))
  /\ Intent.valid (Intent.validate_order_intent o None) = true
  /\ Bus.audit_log (snd r)
     = Bus.audit_log (Bus.init [])
       ++ (if Bus.audit_ok env
           then [Bus.OrderSubmitted id (Intent.intent_id o) (Intent.symbol o)
                   (Intent.side o) (Intent.size o) (Intent.type o)
                   (Intent.warnings (Intent.validate_order_intent o None))
                   (Bus.stamp env)]
           else []).
Proof.
  intros env o.
  apply (submit_success_records_order (Bus.init []) env o None).
  vm_compute. reflexivity.
Defined.

(** X29. A new intent that fails validation is rejected with the
    validation result: [submit] returns [success = False] with the errors
    joined into the message, creates no pending order, and writes one
    [order_rejected] event when the audit file accepts the write. *)
Theorem submit_rejects_invalid_intent
    (bus : Bus.OrderBus) (env : Bus.Env) (o : Intent.OrderIntent)
    (pos : option (gmap string Q)) :
  let r := Bus.submit bus env o pos in
  let v := Intent.validate_order_intent o pos in
  Bus.idempotent (fst r) = false ->
  Bus.fault env Bus.Validation = None ->
  Intent.valid v = false ->
  Bus.success (fst r) = false
  /\ Bus.order_id (fst r) = None
  /\ Bus.validation_result (fst r) = Some v
  /\ Bus.error_message (fst r) = Some (Bus.join_errors (Intent.errors v))
  /\ Bus.pending_orders (snd r) = Bus.pending_orders bus
  /\ Bus.audit_log (snd r)
     = Bus.audit_log bus
       ++ (if Bus.audit_ok env
           then [Bus.OrderRejected (Intent.intent_id o) (Intent.errors v)
                   (Bus.stamp env)]
           else []).
Proof.
  intros r v. unfold r, v. intros Hi Hf Hv. revert Hi.
  bus_unfold. rewrite Hf, Hv. cbn [negb].
  repeat bus_branch; try discriminate; intros _; cbn;
    rewrite ?List.app_nil_r; auto 10.
Qed.

Lemma submit_rejects_invalid_intent_witness :
  let env := Bus.mkEnv (Idem.mkReading 100 100 100) 100 100 true Bus.no_fault in
  let o := Intent.mkIntent "BTC" Intent.BUY 500 Intent.MARKET "a" None
             Intent.GTC None 0 in
  let r := Bus.submit (Bus.init []) env o None in
  let v := Intent.validate_order_intent o None in
  Bus.success (fst r) = false
  /\ Bus.order_id (fst r) = None
  /\ Bus.validation_result (fst r) = Some v
  /\ Bus.error_message (fst r) = Some (Bus.join_errors (Intent.errors v))
  /\ Bus.pending_orders (snd r) = Bus.pending_orders (Bus.init [])
  /\ Bus.audit_log (snd r)
     = Bus.audit_log (Bus.init [])
       ++ (if Bus.audit_ok env
           then [Bus.OrderRejected (Intent.intent_id o) (Intent.errors v)
                   (Bus.stamp env)]
           else []).
Proof.
  intros env o.
  apply (submit_rejects_invalid_intent (Bus.init []) env o None).
  - reflexivity.
  - reflexivity.
  - vm_compute. reflexivity.
Defined.

(** X30. [submit] only appends to the audit file, at most one event per
    call and none when the file rejects writes; and it leaves every pending
    order untouched except the one under the order id it returns. *)
Theorem submit_frame
    (bus : Bus.OrderBus) (env : Bus.Env) (o : Intent.OrderIntent)
    (pos : option (gmap string Q)) :
  let r := Bus.submit bus env o pos in
  (exists suffix,
     Bus.audit_log (snd r) = Bus.audit_log bus ++ suffix
     /\ (length suffix <= 1)%nat
     /\ (Bus.audit_ok env = false -> suffix = []))
  /\ (forall k, Bus.order_id (fst r) <> Some k ->
        Bus.get_order_by_id (snd r) k = Bus.get_order_by_id bus k).
Proof.
  intros r. unfold r, Bus.get_order_by_id. bus_unfold.
  repeat bus_branch;
    (split;
     [ first [ exists []; rewrite List.app_nil_r; cbn; split;
                 [reflexivity | split; [lia | reflexivity]]
             | eexists [_]; cbn; split;
                 [reflexivity | split; [lia | discriminate]] ]
     | intros k Hk; cbn in *; try reflexivity;
       apply lookup_insert_ne; congruence ]).
Qed.
